(** * SIEM detection engine and alert dispatcher: a shallow embedding of
    [siem/detectors.py] and [siem/alerting.py]

    The definitions of the engine come first, in dependency order: the
    Python values and coercions the handlers use, the records, [_evict_old]
    and [_shannon_entropy], the three handlers and their table [_HANDLERS],
    and the engine ([DetectionEngine.__init__], [DetectionEngine.process]).
    The statements about them follow, then the dispatcher and the
    statements about it.

    Conventions.
    - A Python [str] is a [string]; its characters are the [ascii] of the
      string (code points below 256).
    - A [dict] with string keys is a [gmap string _]; a [deque] is a [list]
      whose head is the left end.  The engine reads a [dict] by key only;
      the dispatcher iterates over the [details] of an event, and is given
      the order of their keys beside the map.
    - An exception is a value of [Exn]; code that may raise returns a
      [result], and code that mutates its argument before it raises returns
      the argument as it left it beside the [result].
    - Python floats are the binary64 primitive floats.
    - A [datetime] is an instant counted in microseconds from the epoch,
      between year 1 and year 9999; a [timedelta] is a number of
      microseconds of at most 999999999 days.  Arithmetic that leaves these
      ranges raises [OverflowError], as in Python.  All the datetimes of a
      run are taken to be of one kind, naive or aware: comparing the two
      kinds is outside the model.
    - A generator is modelled by its complete run, as [main] consumes
      [process] with [list].
    - A call that reaches outside the program, [print], [Path.mkdir] or
      [Path.write_text], is an [Effect]; whether it goes through is up to
      the [Environment], and one that raises ends the method that made
      it. *)

From Stdlib Require Import ZArith Floats Uint63 Ascii String List Lia.
From Stdlib Require Import DecimalString Sorted.
From stdpp Require Import gmap strings list fin_maps sorting.

Local Open Scope string_scope.
Local Open Scope list_scope.
Local Open Scope Z_scope.

(** ** Exceptions and the error monad *)

Inductive Exn : Type := ValueError | TypeError | OverflowError.

Inductive result (A : Type) : Type :=
| Ok (a : A)
| Raise (e : Exn).
Arguments Ok {A} a.
Arguments Raise {A} e.

Global Instance result_ret : MRet result := fun _ a => Ok a.
Global Instance result_bind : MBind result := fun _ _ f r =>
  match r with
  | Ok a => f a
  | Raise e => Raise e
  end.

Global Instance result_fmap : FMap result := fun _ _ f r =>
  match r with
  | Ok a => Ok (f a)
  | Raise e => Raise e
  end.

(** ** Python scalars

    The values a rule's [parameters] mapping holds once a YAML or JSON rule
    file is loaded. *)

Inductive PyVal : Type :=
| VNone
| VBool (b : bool)
| VInt (z : Z)
| VFloat (f : float)
| VStr (s : string).

(** The part of the Python runtime the handlers call and that is no code of
    the repository: the text/number conversions of the builtins,
    [math.log2] and [datetime.timestamp].  Every theorem below holds for
    every runtime. *)
Class PyRuntime : Type := {
  (** [int(s)] for a [str]; [None] stands for [ValueError]. *)
  int_of_str : string -> option Z;
  (** [float(s)] for a [str]; [None] stands for [ValueError]. *)
  float_of_str : string -> option float;
  (** [str(x)] for a [float]. *)
  float_repr : float -> string;
  (** [math.log2] on the probabilities [_shannon_entropy] passes, which are
      positive. *)
  log2 : float -> float;
  (** [int(ts.timestamp())] for a [datetime]: the whole seconds of the POSIX
      timestamp [ts.timestamp()] gives the instant.  That timestamp is a
      binary64, and for a naive [datetime] it depends on the local time
      zone. *)
  epoch_seconds : Z -> Z
}.

(** [str(n)] for an [int]. *)
Definition int_repr (z : Z) : string := NilZero.string_of_int (Z.to_int z).

(** [float(n)] for an [int]: the nearest binary64, ties to even. *)
Definition float_of_int (z : Z) : result float :=
  match binary_normalize prec emax z 0 false with
  | S754_infinity _ => Raise OverflowError
  | sf => Ok (SF2Prim sf)
  end.

(** [int(x)] for a [float]: truncation towards zero. *)
Definition int_of_float (f : float) : result Z :=
  match Prim2SF f with
  | S754_zero _ => Ok 0
  | S754_infinity _ => Raise OverflowError
  | S754_nan => Raise ValueError
  | S754_finite s m e =>
      let a := if 0 <=? e then Z.shiftl (Zpos m) e else Z.shiftr (Zpos m) (- e) in
      Ok (if s then - a else a)
  end.

Section Runtime.
Context `{PyRuntime}.

(** The builtin [int(v)]. *)
Definition py_int (v : PyVal) : result Z :=
  match v with
  | VNone => Raise TypeError
  | VBool b => Ok (if b then 1 else 0)
  | VInt z => Ok z
  | VFloat f => int_of_float f
  | VStr s => match int_of_str s with Some z => Ok z | None => Raise ValueError end
  end.

(** The builtin [float(v)]. *)
Definition py_float (v : PyVal) : result float :=
  match v with
  | VNone => Raise TypeError
  | VBool b => Ok (if b then 1%float else 0%float)
  | VInt z => float_of_int z
  | VFloat f => Ok f
  | VStr s => match float_of_str s with Some f => Ok f | None => Raise ValueError end
  end.

(** [str(v)], as an f-string renders [{v}]. *)
Definition py_str (v : PyVal) : string :=
  match v with
  | VNone => "None"
  | VBool b => if b then "True" else "False"
  | VInt z => int_repr z
  | VFloat f => float_repr f
  | VStr s => s
  end.

End Runtime.

(** [s == v] for a [str] [s]: only an equal [str] is equal to it. *)
Definition str_eq (s : string) (v : PyVal) : bool :=
  match v with
  | VStr s' => bool_decide (s = s')
  | _ => false
  end.

(** [x == v] where [x] is the result of [dict.get] on a [str]-valued
    mapping: [None] or a [str]. *)
Definition opt_str_eq (x : option string) (v : PyVal) : bool :=
  match x, v with
  | None, VNone => true
  | Some s, VStr s' => bool_decide (s = s')
  | _, _ => false
  end.

(** [d.get(k)] on a mapping with [str] keys, for an arbitrary scalar [k]:
    a key that is no [str] is never found. *)
Definition dict_get {A : Type} (d : gmap string A) (k : PyVal) : option A :=
  match k with
  | VStr s => d !! s
  | _ => None
  end.

(** [params.get(name, dflt)]. *)
Definition params_get (params : gmap string PyVal) (name : string) (dflt : PyVal) : PyVal :=
  default dflt (params !! name).

(** ** Records *)

(** The three record types are declared in [siem/models.py], which is not
    among the source files; their fields are those the spec's data model
    lists and the handlers read or write. *)

(** Modelled from the spec: the record [Event] of [siem/models.py].  The
    timestamp is an instant, counted in microseconds from the epoch. *)
Record Event : Type := {
  timestamp : Z;
  source : string;
  category : string;
  severity : string;
  details : gmap string string
}.

(** Modelled from the spec: the record [DetectionRule] of [siem/models.py].
    [rule_id], [rule_name], [rule_description], [rule_severity] and
    [rule_remediation] are its fields [id], [name], [description],
    [severity] and [remediation]. *)
Record DetectionRule : Type := {
  rule_id : string;
  rule_name : string;
  rule_type : string;
  rule_description : string;
  rule_severity : string;
  enabled : bool;
  parameters : gmap string PyVal;
  rule_remediation : option string
}.

(** Modelled from the spec: the record [Alert] of [siem/models.py];
    [alert_id] is its field [id].  The field [created_at] holds the
    wall-clock reading [datetime.utcnow()], which is no function of the
    engine's input, and is left out. *)
Record Alert : Type := {
  alert_id : string;
  title : string;
  description : string;
  priority : string;
  events : list Event;
  remediation : option string
}.

(** [timedelta(minutes=n)] in microseconds. *)
Definition minutes (n : Z) : Z := n * 60000000.

(** The instants a [datetime] holds: from [datetime.min], the first
    microsecond of year 1, to [datetime.max], the last of year 9999. *)
Definition datetime_min : Z := -62135596800000000.
Definition datetime_max : Z := 253402300799999999.

(** [timedelta(minutes=n)]: [OverflowError] when the duration is not within
    999999999 days either way. *)
Definition timedelta_minutes (n : Z) : result Z :=
  if (-999999999 <=? n / 1440) && (n / 1440 <=? 999999999)
  then Ok (minutes n)
  else Raise OverflowError.

(** [ts - delta] for a [datetime] and a [timedelta]: [OverflowError] when
    the difference is no [datetime]. *)
Definition datetime_sub (ts delta : Z) : result Z :=
  if (datetime_min <=? ts - delta) && (ts - delta <=? datetime_max)
  then Ok (ts - delta)
  else Raise OverflowError.

(** ** [_evict_old] and [_shannon_entropy] *)

(** The window store of one rule: grouping key to bucket. *)
Abbreviation Buckets := (gmap string (list Event)).

(** [self.state]: rule id to the rule's buckets. *)
Abbreviation Store := (gmap string (gmap string (list Event))).

(** [while bucket and bucket[0].timestamp < cutoff: bucket.popleft()] *)
Fixpoint popleft_while_older (bucket : list Event) (cutoff : Z) : list Event :=
  match bucket with
  | [] => []
  | e :: rest =>
      if timestamp e <? cutoff then popleft_while_older rest cutoff else bucket
  end.

(** [_evict_old] computes the cutoff before it touches the bucket: when
    that raises, the bucket is as the caller passed it. *)
Definition _evict_old (bucket : list Event) (current_ts : Z) (window_minutes : Z)
    : result (list Event) :=
  delta ← timedelta_minutes window_minutes;
  cutoff ← datetime_sub current_ts delta;
  mret (popleft_while_older bucket cutoff).

(** [counts[char] += 1] on a [defaultdict(int)]: a dict keeps its keys in
    the order of their first insertion, and [counts.values()] follows it. *)
Fixpoint incr_count (char : ascii) (counts : list (ascii * Z)) : list (ascii * Z) :=
  match counts with
  | [] => [(char, 1)]
  | (c, n) :: rest =>
      if bool_decide (c = char) then (c, n + 1) :: rest
      else (c, n) :: incr_count char rest
  end.

(** [a / b] on two [int]s: the quotient rounded to the nearest binary64.
    Both operands are below [2^53] here (a count and a string length), so
    the division of their exact float images is that rounding. *)
Definition true_div (a b : Z) : float :=
  (SF2Prim (binary_normalize prec emax a 0 false)
   / SF2Prim (binary_normalize prec emax b 0 false))%float.

(** The signature of a detection handler: the buckets as the call leaves
    them, and the alerts it yields or the exception it raises. *)
Abbreviation Handler :=
  (Buckets -> DetectionRule -> Event -> Buckets * result (list Alert)).

Section Handlers.
Context `{PyRuntime}.

Definition _shannon_entropy (value : string) : float :=
  let counts :=
    fold_left (fun counts char => incr_count char counts)
              (list_ascii_of_string value) [] in
  fold_left
    (fun entropy count =>
       let p := true_div count (Z.of_nat (String.length value)) in
       (entropy - p * log2 p)%float)
    (counts.*2) 0%float.

(** ** Detection handlers

    A handler is a generator; [process] drains it with [yield from], so a
    call is modelled by its complete run: the store it leaves, and the
    alerts it yields or the exception it raises.  The coercions stand at
    the head of each body and raise before the store is touched;
    [_evict_old] is called once the event is appended, and when it raises
    the event stays in its bucket. *)

Definition _handle_failed_login (state : Buckets) (rule : DetectionRule) (event : Event)
    : Buckets * result (list Alert) :=
  let params := parameters rule in
  let category' := params_get params "event_category" (VStr "auth") in
  let match_field := params_get params "match_field" (VStr "result") in
  let match_value := params_get params "match_value" (VStr "failed") in
  let group_by := params_get params "group_by" (VStr "username") in
  match py_int (params_get params "threshold" (VInt 5)) with
  | Raise e => (state, Raise e)
  | Ok threshold =>
  match py_int (params_get params "window_minutes" (VInt 10)) with
  | Raise e => (state, Raise e)
  | Ok window_minutes =>
  if negb (str_eq (category event) category') then (state, Ok [])
  else if negb (opt_str_eq (dict_get (details event) match_field) match_value)
  then (state, Ok [])
  else
    let key := default "unknown" (dict_get (details event) group_by) in
    let bucket := (default [] (state !! key) ++ [event])%list in
    match _evict_old bucket (timestamp event) window_minutes with
    | Raise e => (<[key := bucket]> state, Raise e)
    | Ok bucket =>
    if Z.of_nat (length bucket) >=? threshold then
      (<[key := []]> state,
       Ok [ {| alert_id := rule_id rule +:+ ":" +:+ key +:+ ":"
                           +:+ int_repr (epoch_seconds (timestamp event));
               title := rule_name rule +:+ " for " +:+ key;
               description :=
                 "Detected " +:+ int_repr (Z.of_nat (length bucket))
                 +:+ " failed logins for " +:+ key +:+ " within "
                 +:+ int_repr window_minutes +:+ " minutes.";
               priority := rule_severity rule;
               events := bucket;
               remediation := rule_remediation rule |} ])
    else (<[key := bucket]> state, Ok [])
    end
  end
  end.

Definition _handle_port_scan (state : Buckets) (rule : DetectionRule) (event : Event)
    : Buckets * result (list Alert) :=
  let params := parameters rule in
  let category' := params_get params "event_category" (VStr "network") in
  let group_by := params_get params "group_by" (VStr "src_ip") in
  let distinct_field := params_get params "distinct_field" (VStr "dest_port") in
  match py_int (params_get params "threshold" (VInt 15)) with
  | Raise e => (state, Raise e)
  | Ok threshold =>
  match py_int (params_get params "window_minutes" (VInt 5)) with
  | Raise e => (state, Raise e)
  | Ok window_minutes =>
  if negb (str_eq (category event) category') then (state, Ok [])
  else
    let key := default "unknown" (dict_get (details event) group_by) in
    let bucket := (default [] (state !! key) ++ [event])%list in
    match _evict_old bucket (timestamp event) window_minutes with
    | Raise e => (<[key := bucket]> state, Raise e)
    | Ok bucket =>
    let unique_values : gset (option string) :=
      list_to_set ((fun e => dict_get (details e) distinct_field) <$> bucket) in
    if Z.of_nat (size unique_values) >=? threshold then
      (<[key := []]> state,
       Ok [ {| alert_id := rule_id rule +:+ ":" +:+ key +:+ ":"
                           +:+ int_repr (epoch_seconds (timestamp event));
               title := rule_name rule +:+ " from " +:+ key;
               description :=
                 "Observed potential port scan with "
                 +:+ int_repr (Z.of_nat (size unique_values))
                 +:+ " unique " +:+ py_str distinct_field +:+ " values.";
               priority := rule_severity rule;
               events := bucket;
               remediation := rule_remediation rule |} ])
    else (<[key := bucket]> state, Ok [])
    end
  end
  end.

Definition _handle_dns_anomaly (state : Buckets) (rule : DetectionRule) (event : Event)
    : Buckets * result (list Alert) :=
  let params := parameters rule in
  let category' := params_get params "event_category" (VStr "dns") in
  match py_int (params_get params "length_threshold" (VInt 45)) with
  | Raise e => (state, Raise e)
  | Ok length_threshold =>
  match py_float (params_get params "entropy_threshold" (VFloat 3.5)) with
  | Raise e => (state, Raise e)
  | Ok entropy_threshold =>
  if negb (str_eq (category event) category') then (state, Ok [])
  else
    match details event !! "query" with
    | None => (state, Ok [])
    | Some domain =>
        if bool_decide (domain = "") then (state, Ok [])
        else if (Z.of_nat (String.length domain) >=? length_threshold)
                || (entropy_threshold <=? _shannon_entropy domain)%float
        then
          (state,
           Ok [ {| alert_id := rule_id rule +:+ ":" +:+ domain +:+ ":"
                               +:+ int_repr (epoch_seconds (timestamp event));
                   title := rule_name rule +:+ " - suspicious domain " +:+ domain;
                   description :=
                     "Detected DNS query that may indicate tunneling activity due to long or high entropy domain name.";
                   priority := rule_severity rule;
                   events := [event];
                   remediation := rule_remediation rule |} ])
        else (state, Ok [])
    end
  end
  end.

Definition _HANDLERS : gmap string Handler :=
  list_to_map
    [ ("failed_login_threshold", _handle_failed_login);
      ("port_scan", _handle_port_scan);
      ("dns_anomaly", _handle_dns_anomaly) ].

(** ** The engine *)

Record DetectionEngine : Type := {
  rules : list DetectionRule;
  state : Store
}.

Definition DetectionEngine_init (rules : list DetectionRule) : DetectionEngine :=
  {| rules := filter (fun rule => enabled rule = true) rules; state := ∅ |}.

(** What the caller of [process] has observed when the generator is
    exhausted or dies: the store as it stands, the items yielded so far, in
    order, and the exception that ended the iteration, if any. *)
Definition Run (B : Type) : Type := Store * list B * option Exn.

(** A [for] loop whose body mutates the store and yields items; an
    exception leaves the loop. *)
Fixpoint for_each {A B : Type} (body : Store -> A -> Run B) (st : Store) (items : list A)
    : Run B :=
  match items with
  | [] => (st, [], None)
  | x :: rest =>
      match body st x with
      | (st1, out1, Some e) => (st1, out1, Some e)
      | (st1, out1, None) =>
          let '(st2, out2, exn) := for_each body st1 rest in
          (st2, (out1 ++ out2)%list, exn)
      end
  end.

(** The body of the inner loop.  [self.state[rule.id]] is evaluated once a
    handler is found, and on a [defaultdict] creates the rule's entry;
    the handler then mutates that entry in place. *)
Definition process_rule (event : Event) (st : Store) (rule : DetectionRule) : Run Alert :=
  match _HANDLERS !! rule_type rule with
  | None => (st, [], None)
  | Some handler =>
      let buckets := default ∅ (st !! rule_id rule) in
      match handler buckets rule event with
      | (buckets', Ok alerts) => (<[rule_id rule := buckets']> st, alerts, None)
      | (buckets', Raise e) => (<[rule_id rule := buckets']> st, [], Some e)
      end
  end.

Definition process_event (rules : list DetectionRule) (st : Store) (event : Event)
    : Run Alert :=
  for_each (process_rule event) st rules.

(** [list(self.process(events))], as [main] consumes the generator. *)
Definition process (self : DetectionEngine) (events : list Event)
    : DetectionEngine * list Alert * option Exn :=
  let '(st, alerts, exn) := for_each (process_event (rules self)) (state self) events in
  ({| rules := rules self; state := st |}, alerts, exn).

(** The same run with every alert paired with the rule whose handler
    yielded it.  The pairing is bookkeeping for the statements about one
    rule's alerts; [process_attributed_erase] shows that dropping it gives
    [process]. *)
Definition process_rule_attributed (event : Event) (st : Store) (rule : DetectionRule)
    : Run (DetectionRule * Alert) :=
  let '(st', alerts, exn) := process_rule event st rule in
  (st', (fun alert => (rule, alert)) <$> alerts, exn).

Definition process_attributed (self : DetectionEngine) (events : list Event)
    : DetectionEngine * list (DetectionRule * Alert) * option Exn :=
  let '(st, alerts, exn) :=
    for_each (fun st event => for_each (process_rule_attributed event) st (rules self))
             (state self) events in
  ({| rules := rules self; state := st |}, alerts, exn).

(** ** Vocabulary of the statements *)

(** The filter of the threshold-count handler: category and match field. *)
Definition login_matches (rule : DetectionRule) (event : Event) : bool :=
  let params := parameters rule in
  str_eq (category event) (params_get params "event_category" (VStr "auth"))
  && opt_str_eq (dict_get (details event) (params_get params "match_field" (VStr "result")))
                (params_get params "match_value" (VStr "failed")).

(** The grouping key a rule derives from an event. *)
Definition group_key (rule : DetectionRule) (dflt : string) (event : Event) : string :=
  default "unknown" (dict_get (details event) (params_get (parameters rule) "group_by" (VStr dflt))).

(** The window a windowed rule is configured with: its [window_minutes]
    parameter or, without one, the default of its handler. *)
Definition window_minutes_of (rule : DetectionRule) : result Z :=
  py_int (params_get (parameters rule) "window_minutes"
            (VInt (if bool_decide (rule_type rule = "port_scan") then 5 else 10))).

(** A numeric parameter of the rule is present and its coercion, by the
    handler that reads it, raises. *)
Inductive uncoercible (rule : DetectionRule) : Prop :=
| uncoercible_count name v e :
    rule_type rule = "failed_login_threshold" \/ rule_type rule = "port_scan" ->
    name = "threshold" \/ name = "window_minutes" ->
    parameters rule !! name = Some v -> py_int v = Raise e -> uncoercible rule
| uncoercible_length v e :
    rule_type rule = "dns_anomaly" ->
    parameters rule !! "length_threshold" = Some v -> py_int v = Raise e ->
    uncoercible rule
| uncoercible_entropy v e :
    rule_type rule = "dns_anomaly" ->
    parameters rule !! "entropy_threshold" = Some v -> py_float v = Raise e ->
    uncoercible rule.

(** The bucket once [_evict_old] has dropped the events older than the
    window that ends at [current_ts]. *)
Definition evicted (bucket : list Event) (current_ts window_minutes : Z) : list Event :=
  popleft_while_older bucket (current_ts - minutes window_minutes).

(** The cutoff of a window of [W] minutes that ends at [current_ts] can
    be computed: the [timedelta] is within its range and the cutoff is a
    [datetime]. *)
Definition cutoff_in_range (current_ts W : Z) : Prop :=
  -999999999 <= W / 1440 <= 999999999
  /\ datetime_min <= current_ts - minutes W <= datetime_max.

(** The same for the window that ends at an event. *)
Definition window_in_range (W : Z) (event : Event) : Prop :=
  cutoff_in_range (timestamp event) W.

(** The timestamp of the event is a [datetime]. *)
Definition is_datetime (event : Event) : Prop :=
  datetime_min <= timestamp event <= datetime_max.

(** A bucket in timestamp order, with no event later than [t] and every
    event within [W] minutes of every other. *)
Definition bucket_ok (W t : Z) (bucket : list Event) : Prop :=
  StronglySorted (fun e e' => timestamp e <= timestamp e') bucket
  /\ Forall (fun e => timestamp e <= t) bucket
  /\ forall e latest, e ∈ bucket -> latest ∈ bucket ->
       timestamp latest - minutes W <= timestamp e.

(** The bucket of a rule and a grouping key, when there is one. *)
Definition bucket_of (st : Store) (id key : string) : option (list Event) :=
  st !! id ≫= fun buckets => buckets !! key.

End Handlers.

(** ** A reference runtime

    An executable instance of [PyRuntime], used to run the engine on
    concrete inputs.  It reads ASCII text: [int_of_str] takes the decimal
    literals of [int()] (surrounding blanks, a sign, single underscores
    between digits), [float_of_str] the decimal literals of [float()] with
    an optional fraction and exponent and the words inf, infinity and nan,
    correctly rounded.  [float_repr] prints the exact decimal expansion
    (CPython prints the shortest one that reads back), [log2] is a series
    evaluation, exact on the powers of two, and [epoch_seconds] is the
    computation of CPython for a naive [datetime] under UTC. *)
Module RefRuntime.

Definition is_space (c : ascii) : bool :=
  let n := Z.of_nat (nat_of_ascii c) in
  ((9 <=? n) && (n <=? 13)) || ((28 <=? n) && (n <=? 32)) || (n =? 133) || (n =? 160).

Definition digit (c : ascii) : option Z :=
  let n := Z.of_nat (nat_of_ascii c) in
  if (48 <=? n) && (n <=? 57) then Some (n - 48) else None.

Definition lower (c : ascii) : ascii :=
  let n := nat_of_ascii c in
  if ((65 <=? n) && (n <=? 90))%nat then ascii_of_nat (n + 32) else c.

Fixpoint lstrip (cs : list ascii) : list ascii :=
  match cs with
  | c :: rest => if is_space c then lstrip rest else cs
  | [] => []
  end.

Definition strip (s : string) : list ascii :=
  rev (lstrip (rev (lstrip (list_ascii_of_string s)))).

(** Digits with single underscores between them; [after_digit] tells
    whether the previous character was a digit.  Returns the number read
    and how many digits it had. *)
Fixpoint digits (acc : Z) (n : Z) (after_digit : bool) (cs : list ascii)
    : option (Z * Z) :=
  match cs with
  | [] => if after_digit then Some (acc, n) else None
  | c :: rest =>
      match digit c with
      | Some d => digits (10 * acc + d) (n + 1) true rest
      | None =>
          if bool_decide (c = "_"%char) && after_digit
          then digits acc n false rest
          else None
      end
  end.

Definition signed (cs : list ascii) : bool * list ascii :=
  match cs with
  | c :: rest =>
      if bool_decide (c = "-"%char) then (true, rest)
      else if bool_decide (c = "+"%char) then (false, rest)
      else (false, cs)
  | [] => (false, [])
  end.

Definition int_of_str (s : string) : option Z :=
  let '(neg, cs) := signed (strip s) in
  '(n, _) ← digits 0 0 false cs;
  Some (if neg then - n else n).

(** The binary64 nearest to [m * 10^p], ties to even, for [0 <= m]. *)
Definition decimal_to_float (neg : bool) (m p : Z) : float :=
  let sf :=
    if m =? 0 then S754_zero neg
    else if 0 <=? p then binary_normalize prec emax ((if neg then - m else m) * 10 ^ p) 0 false
    else
      let d := 10 ^ (- p) in
      let s := Z.max 0 (Z.log2 d + 64 - Z.log2 m) in
      let q := 2 * (Z.shiftl m s / d) + (if Z.shiftl m s mod d =? 0 then 0 else 1) in
      binary_normalize prec emax (if neg then - q else q) (- s - 1) false in
  SF2Prim sf.

(** Splits at the first character satisfying [p], which is dropped. *)
Fixpoint split_at (p : ascii -> bool) (cs : list ascii) : list ascii * option (list ascii) :=
  match cs with
  | [] => ([], None)
  | c :: rest =>
      if p c then ([], Some rest)
      else let '(l, r) := split_at p rest in (c :: l, r)
  end.

Definition opt_digits (cs : list ascii) : option (Z * Z) :=
  match cs with
  | [] => Some (0, 0)
  | _ => digits 0 0 false cs
  end.

Definition float_of_str (s : string) : option float :=
  let '(neg, cs) := signed (lower <$> strip s) in
  let word := string_of_list_ascii cs in
  if bool_decide (word = "inf") || bool_decide (word = "infinity")
  then Some (if neg then neg_infinity else infinity)
  else if bool_decide (word = "nan") then Some nan
  else
    let '(mant, exp) := split_at (fun c => bool_decide (c = "e"%char)) cs in
    let '(ipart, fpart) := split_at (fun c => bool_decide (c = "."%char)) mant in
    '(i, ni) ← opt_digits ipart;
    '(f, nf) ← opt_digits (default [] fpart);
    if ni + nf =? 0 then None
    else
      e ← match exp with
          | None => Some 0
          | Some ecs =>
              let '(eneg, ecs) := signed ecs in
              '(e, _) ← digits 0 0 false ecs;
              Some (if eneg then - e else e)
          end;
      Some (decimal_to_float neg (i * 10 ^ nf + f) (e - nf)).

Fixpoint drop_zeros (cs : list ascii) : list ascii :=
  match cs with
  | c :: rest => if bool_decide (c = "0"%char) then drop_zeros rest else cs
  | [] => []
  end.

(** The decimal expansion of [m / 2^k], for [0 <= m]. *)
Definition dyadic_repr (m k : Z) : string :=
  let n := m * 5 ^ k in
  let ip := n / 10 ^ k in
  let fp := n mod 10 ^ k in
  if fp =? 0 then int_repr ip +:+ ".0"
  else
    let frac := list_ascii_of_string (int_repr (10 ^ k + fp)) in
    int_repr ip +:+ "."
    +:+ string_of_list_ascii (rev (drop_zeros (rev (tail frac)))).

Definition float_repr (f : float) : string :=
  match Prim2SF f with
  | S754_nan => "nan"
  | S754_infinity s => if s then "-inf" else "inf"
  | S754_zero s => if s then "-0.0" else "0.0"
  | S754_finite s m e =>
      (if s then "-" else "")
      +:+ (if 0 <=? e then int_repr (Z.shiftl (Zpos m) e) +:+ ".0"
           else dyadic_repr (Zpos m) (- e))
  end.

(** [ln x = 2 * atanh ((x - 1) / (x + 1))], summed for [n] terms. *)
Fixpoint atanh_series (n : nat) (z2 power k acc : float) : float :=
  match n with
  | O => acc
  | S n' => atanh_series n' z2 (power * z2) (k + 2) (acc + power / k)
  end%float.

Definition log2 (x : float) : float :=
  let '(m, e) := Z.frexp x in
  if (m =? 0.5)%float then SF2Prim (binary_normalize prec emax (e - 1) 0 false)
  else
    let z := ((m - 1) / (m + 1))%float in
    let ln_m := (2 * atanh_series 40 (z * z) z 1 0)%float in
    (SF2Prim (binary_normalize prec emax e 0 false)
     + ln_m / 0x1.62e42fefa39efp-1)%float.

(** [int(ts.timestamp())] of a naive [datetime] where local time is UTC:
    the seconds as a float plus the microseconds divided by [1e6], both
    rounded to binary64, then truncated. *)
Definition epoch_seconds (ts : Z) : Z :=
  let seconds := SF2Prim (binary_normalize prec emax (ts / 1000000) 0 false) in
  let micro := SF2Prim (binary_normalize prec emax (ts mod 1000000) 0 false) in
  match int_of_float (seconds + micro / 1000000)%float with
  | Ok z => z
  | Raise _ => 0
  end.

End RefRuntime.

Definition ref_runtime : PyRuntime :=
  {| int_of_str := RefRuntime.int_of_str;
     float_of_str := RefRuntime.float_of_str;
     float_repr := RefRuntime.float_repr;
     log2 := RefRuntime.log2;
     epoch_seconds := RefRuntime.epoch_seconds |}.

(** ** Concrete rules and events

    The inputs of the scenarios the spec lists, and of the examples below. *)
Module Scenario.

Definition mk_rule (id type : string) (params : list (string * PyVal)) : DetectionRule :=
  {| rule_id := id; rule_name := id; rule_type := type;
     rule_description := ""; rule_severity := "high"; enabled := true;
     parameters := list_to_map params; rule_remediation := None |}.

(** An event at minute [m] after the epoch. *)
Definition mk_event (m : Z) (cat : string) (fields : list (string * string)) : Event :=
  {| timestamp := minutes m; source := "test.log"; category := cat;
     severity := "info"; details := list_to_map fields |}.

Definition login_rule : DetectionRule :=
  mk_rule "brute" "failed_login_threshold"
    [ ("group_by", VStr "username"); ("match_field", VStr "result");
      ("match_value", VStr "failed"); ("threshold", VInt 3);
      ("window_minutes", VInt 10) ].

Definition failed (m : Z) : Event :=
  mk_event m "auth" [("username", "alice"); ("result", "failed")].

Definition dns_rule : DetectionRule :=
  mk_rule "tunnel" "dns_anomaly"
    [ ("length_threshold", VInt 45); ("entropy_threshold", VFloat 3.5) ].

Definition query (m : Z) (domain : string) : Event :=
  mk_event m "dns" [("query", domain)].

(** A DNS event without the target field. *)
Definition no_query (m : Z) : Event := mk_event m "dns" [("client", "10.0.0.7")].



(** An entropy threshold that is no number. *)
Definition dns_rule_bad : DetectionRule :=
  mk_rule "tunnel" "dns_anomaly"
    [ ("length_threshold", VInt 45); ("entropy_threshold", VStr "high") ].

(** A threshold that is no number. *)
Definition login_rule_bad : DetectionRule :=
  mk_rule "brute" "failed_login_threshold"
    [ ("threshold", VStr "three"); ("window_minutes", VInt 10) ].

Definition disabled_rule : DetectionRule :=
  {| rule_id := "brute-off"; rule_name := "brute-off";
     rule_type := "failed_login_threshold"; rule_description := "";
     rule_severity := "high"; enabled := false;
     parameters := {[ "threshold" := VInt 1 ]}; rule_remediation := None |}.

Definition unknown_rule : DetectionRule :=
  mk_rule "beacon" "beaconing" [ ("threshold", VStr "three") ].

Definition scan_rule : DetectionRule :=
  mk_rule "scan" "port_scan"
    [ ("group_by", VStr "src_ip"); ("distinct_field", VStr "dest_port");
      ("threshold", VInt 2); ("window_minutes", VInt 5) ].


Definition conn (m : Z) (port action : string) : Event :=
  mk_event m "network"
    [ ("src_ip", "10.0.0.5"); ("dest_port", port); ("action", action) ].

(** A connection event without the destination port. *)
Definition conn_no_port (m : Z) : Event :=
  mk_event m "network" [ ("src_ip", "10.0.0.5") ].

(** A threshold of 1 in a window of 2000000000 minutes, some 3800 years:
    counted back from 1970 its cutoff lies before year 1. *)
Definition login_rule_far : DetectionRule :=
  mk_rule "brute" "failed_login_threshold"
    [ ("threshold", VInt 1); ("window_minutes", VInt 2000000000) ].

(** A window of -5000000000 minutes: counted from 1970 its cutoff lies
    beyond year 9999. *)
Definition login_rule_ahead : DetectionRule :=
  mk_rule "brute" "failed_login_threshold"
    [ ("threshold", VInt 3); ("window_minutes", VInt (-5000000000)) ].

End Scenario.

(** ** The handler table and the loops *)

Section Engine_facts.
Context `{PyRuntime}.

Lemma _HANDLERS_failed_login :
  _HANDLERS !! "failed_login_threshold" = Some _handle_failed_login.
Proof. reflexivity. Qed.

Lemma _HANDLERS_port_scan : _HANDLERS !! "port_scan" = Some _handle_port_scan.
Proof. reflexivity. Qed.

Lemma _HANDLERS_dns_anomaly : _HANDLERS !! "dns_anomaly" = Some _handle_dns_anomaly.
Proof. reflexivity. Qed.

Lemma _HANDLERS_inv (type : string) (handler : Handler) :
  _HANDLERS !! type = Some handler ->
  (type = "failed_login_threshold" /\ handler = _handle_failed_login)
  \/ (type = "port_scan" /\ handler = _handle_port_scan)
  \/ (type = "dns_anomaly" /\ handler = _handle_dns_anomaly).
Proof.
  unfold _HANDLERS. cbn [list_to_map foldr uncurry fst snd].
  rewrite !lookup_insert. repeat case_decide; rewrite ?lookup_empty; naive_solver.
Qed.

Lemma for_each_app {A B : Type} (body : Store -> A -> Run B) (st : Store) (l1 l2 : list A) :
  for_each body st (l1 ++ l2) =
  match for_each body st l1 with
  | (st1, out1, Some e) => (st1, out1, Some e)
  | (st1, out1, None) =>
      let '(st2, out2, exn) := for_each body st1 l2 in (st2, (out1 ++ out2)%list, exn)
  end.
Proof.
  revert st. induction l1 as [|x l1 IH]; intros st; simpl.
  - destruct (for_each body st l2) as [[? ?] ?]. reflexivity.
  - destruct (body st x) as [[st1 out1] [e|]]; [reflexivity|].
    rewrite IH. destruct (for_each body st1 l1) as [[st2 out2] [e|]]; [reflexivity|].
    destruct (for_each body st2 l2) as [[st3 out3] exn]. by rewrite app_assoc.
Qed.

(** An item on which the body does nothing can be left out of the loop. *)
Lemma for_each_skip {A B : Type} (body : Store -> A -> Run B) (x : A) (l1 l2 : list A) :
  (forall st, body st x = (st, [], None)) ->
  forall st, for_each body st (l1 ++ x :: l2) = for_each body st (l1 ++ l2).
Proof.
  intros Hx st. rewrite !for_each_app.
  destruct (for_each body st l1) as [[st1 out1] [e|]]; [reflexivity|].
  simpl. rewrite Hx. by destruct (for_each body st1 l2) as [[? ?] ?].
Qed.

Lemma for_each_ext {A B : Type} (body body' : Store -> A -> Run B) (l : list A) :
  (forall st x, body st x = body' st x) ->
  forall st, for_each body st l = for_each body' st l.
Proof.
  intros Hb. induction l as [|x l IH]; intros st; simpl; [reflexivity|].
  rewrite Hb. destruct (body' st x) as [[st1 out1] [e|]]; [reflexivity|]. by rewrite IH.
Qed.

(** A store invariant the body keeps, and a property of all it yields, hold
    of the whole loop, however it ends. *)
Lemma for_each_invariant {A B : Type} (body : Store -> A -> Run B)
    (I : Store -> Prop) (P : B -> Prop) (l : list A) :
  (forall st x, x ∈ l -> I st ->
     I (body st x).1.1 /\ Forall P (body st x).1.2) ->
  forall st, I st -> I (for_each body st l).1.1 /\ Forall P (for_each body st l).1.2.
Proof.
  induction l as [|x l IH]; intros Hb st Hst; simpl; [by split|].
  destruct (Hb st x) as [HI HP]; [left | done |].
  destruct (body st x) as [[st1 out1] [e|]]; simpl in *; [by split|].
  destruct (IH (fun st x Hx => Hb st x (list_elem_of_further _ _ _ Hx)) st1 HI) as [HI' HP'].
  destruct (for_each body st1 l) as [[st2 out2] exn]; simpl in *.
  split; [done | by apply Forall_app].
Qed.

End Engine_facts.

(** ** Rules the engine does not run *)

Section Inert_rules.
Context `{PyRuntime}.

Lemma process_skip (rule : DetectionRule) (l1 l2 : list DetectionRule) :
  (forall event st, process_rule event st rule = (st, [], None)) ->
  forall st events,
    for_each (process_event (l1 ++ rule :: l2)) st events
    = for_each (process_event (l1 ++ l2)) st events.
Proof.
  intros Hskip st events. revert st. apply for_each_ext. intros st event.
  unfold process_event. apply for_each_skip. intros st'. apply Hskip.
Qed.

(** C8: a rule whose [rule_type] has no entry in the handler table is
    skipped: its turn in the loop raises nothing, yields no alert and leaves
    the store as it was, and the run of an engine holding it is the run of
    the engine without it. *)
Theorem unregistered_rule_type_skipped (rule : DetectionRule) :
  _HANDLERS !! rule_type rule = None ->
  (forall event st, process_rule event st rule = (st, [], None))
  /\ forall l1 l2 st events,
       let with_rule := process {| rules := l1 ++ rule :: l2; state := st |} events in
       let without := process {| rules := l1 ++ l2; state := st |} events in
       state with_rule.1.1 = state without.1.1
       /\ with_rule.1.2 = without.1.2
       /\ with_rule.2 = without.2.
Proof.
  intros Hnone.
  assert (Hskip : forall event st, process_rule event st rule = (st, [], None)).
  { intros event st. unfold process_rule. by rewrite Hnone. }
  split; [exact Hskip|].
  intros l1 l2 st events. unfold process. cbn [rules state].
  rewrite (process_skip rule l1 l2 Hskip).
  by destruct (for_each (process_event (l1 ++ l2)) st events) as [[? ?] ?].
Qed.

(** C7: a rule with [enabled = false] is dropped when the engine is built:
    the engine is the one built without the rule, so every run of it yields
    the same alerts, leaves the same store and ends the same way, and the
    rule is not among the rules the loop visits. *)
Theorem disabled_rule_inert (rule : DetectionRule) (l1 l2 : list DetectionRule) :
  enabled rule = false ->
  DetectionEngine_init (l1 ++ rule :: l2) = DetectionEngine_init (l1 ++ l2)
  /\ (rule ∉ rules (DetectionEngine_init (l1 ++ rule :: l2)))
  /\ forall events,
       process (DetectionEngine_init (l1 ++ rule :: l2)) events
       = process (DetectionEngine_init (l1 ++ l2)) events.
Proof.
  intros Hoff.
  assert (Heq : DetectionEngine_init (l1 ++ rule :: l2) = DetectionEngine_init (l1 ++ l2)).
  { unfold DetectionEngine_init. f_equal. rewrite !filter_app, filter_cons.
    case_decide; [congruence | reflexivity]. }
  split; [exact Heq|]. split.
  - unfold DetectionEngine_init. cbn [rules]. intros Hin.
    apply list_elem_of_filter in Hin as [Hon _]. congruence.
  - intros events. by rewrite Heq.
Qed.

End Inert_rules.

(** ** Configuration errors *)

Section Configuration_errors.
Context `{PyRuntime}.

Lemma params_get_present (params : gmap string PyVal) (name : string) (dflt v : PyVal) :
  params !! name = Some v -> params_get params name dflt = v.
Proof. intros Hv. unfold params_get. by rewrite Hv. Qed.

Lemma for_each_raises {A B : Type} (body : Store -> A -> Run B) (x : A) (l : list A) :
  x ∈ l -> (forall st, is_Some (body st x).2) ->
  forall st, is_Some (for_each body st l).2.
Proof.
  intros Hin Hx. induction l as [|y l IH]; intros st; [by apply elem_of_nil in Hin|].
  simpl. destruct (body st y) as [[st1 out1] [e|]] eqn:Hy; [by eexists|].
  apply elem_of_cons in Hin as [->|Hin].
  - specialize (Hx st). rewrite Hy in Hx. by destruct Hx.
  - specialize (IH Hin st1). by destruct (for_each body st1 l) as [[? ?] ?].
Qed.

Lemma for_each_raises_first {A B : Type} (body : Store -> A -> Run B) (x : A) (l : list A) (st : Store) :
  is_Some (body st x).2 -> for_each body st (x :: l) = for_each body st [x].
Proof.
  intros [e He]. simpl. by destruct (body st x) as [[st1 out1] [e'|]].
Qed.

(** The handler of a rule with an uncoercible numeric parameter raises on
    every call, whatever the store and the event, and leaves the store as
    it was. *)
Lemma uncoercible_handler_raises (rule : DetectionRule) :
  uncoercible rule ->
  exists handler e,
    _HANDLERS !! rule_type rule = Some handler
    /\ forall st event, handler st rule event = (st, Raise e).
Proof.
  intros [name v e [Ht|Ht] Hname Hv He | v e Ht Hv He | v e Ht Hv He]; rewrite Ht.
  - destruct (py_int (params_get (parameters rule) "threshold" (VInt 5))) as [T|e'] eqn:HT.
    + exists _handle_failed_login, e. split; [reflexivity|]. intros st event.
      unfold _handle_failed_login. rewrite HT.
      destruct Hname as [->| ->].
      * rewrite (params_get_present _ _ _ _ Hv) in HT. congruence.
      * by rewrite (params_get_present _ _ _ _ Hv), He.
    + exists _handle_failed_login, e'. split; [reflexivity|]. intros st event.
      unfold _handle_failed_login. by rewrite HT.
  - destruct (py_int (params_get (parameters rule) "threshold" (VInt 15))) as [T|e'] eqn:HT.
    + exists _handle_port_scan, e. split; [reflexivity|]. intros st event.
      unfold _handle_port_scan. rewrite HT.
      destruct Hname as [->| ->].
      * rewrite (params_get_present _ _ _ _ Hv) in HT. congruence.
      * by rewrite (params_get_present _ _ _ _ Hv), He.
    + exists _handle_port_scan, e'. split; [reflexivity|]. intros st event.
      unfold _handle_port_scan. by rewrite HT.
  - exists _handle_dns_anomaly, e. split; [reflexivity|]. intros st event.
    unfold _handle_dns_anomaly. by rewrite (params_get_present _ _ _ _ Hv), He.
  - destruct (py_int (params_get (parameters rule) "length_threshold" (VInt 45))) as [T|e'] eqn:HT.
    + exists _handle_dns_anomaly, e. split; [reflexivity|]. intros st event.
      unfold _handle_dns_anomaly. rewrite HT.
      by rewrite (params_get_present _ _ _ _ Hv), He.
    + exists _handle_dns_anomaly, e'. split; [reflexivity|]. intros st event.
      unfold _handle_dns_anomaly. by rewrite HT.
Qed.

(** C6: when a numeric parameter of a retained rule is present and cannot
    be coerced, the rule's handler raises on every event instead of falling
    back on the default, before it touches the store, and the exception
    leaves [process]: a run over a non-empty event sequence ends with an
    exception, while the first event is being processed. *)
Theorem uncoercible_parameter_raises (self : DetectionEngine) (rule : DetectionRule) :
  rule ∈ rules self ->
  uncoercible rule ->
  (exists handler e,
     _HANDLERS !! rule_type rule = Some handler
     /\ forall st event, handler st rule event = (st, Raise e))
  /\ forall event events,
       is_Some (process self (event :: events)).2
       /\ process self (event :: events) = process self [event].
Proof.
  intros Hin Hbad. split; [by apply uncoercible_handler_raises|].
  destruct (uncoercible_handler_raises rule Hbad) as (handler & e & Hh & Hraise).
  assert (Hev : forall st event, is_Some (process_event (rules self) st event).2).
  { intros st event. unfold process_event. apply (for_each_raises _ rule); [done|].
    intros st'. unfold process_rule. rewrite Hh, Hraise. by eexists. }
  intros event events. unfold process.
  rewrite (for_each_raises_first _ event events (state self) (Hev _ _)).
  split; [|reflexivity].
  simpl. specialize (Hev (state self) event).
  destruct (process_event (rules self) (state self) event) as [[st1 out1] [e'|]];
    [by eexists | by destruct Hev].
Qed.

End Configuration_errors.

(** ** The anomaly-scoring handler *)

Section Dns_anomaly.
Context `{PyRuntime}.

Ltac run_dns :=
  unfold _handle_dns_anomaly;
  repeat match goal with
  | |- context [py_int ?v] => destruct (py_int v) eqn:?
  | |- context [py_float ?v] => destruct (py_float v) eqn:?
  end.

(** The handler never leaves a store other than the one it was given. *)
Lemma _handle_dns_anomaly_store (state : Buckets) (rule : DetectionRule) (event : Event) :
  (_handle_dns_anomaly state rule event).1 = state.
Proof.
  run_dns; try reflexivity.
  destruct (negb _); [reflexivity|].
  destruct (details event !! "query") as [domain|]; [|reflexivity].
  case_bool_decide; [reflexivity|].
  by destruct (_ || _).
Qed.

Lemma _handle_dns_anomaly_yielded (state other : Buckets) (rule : DetectionRule) (event : Event) :
  (_handle_dns_anomaly other rule event).2 = (_handle_dns_anomaly state rule event).2.
Proof.
  run_dns; try reflexivity.
  destruct (negb _); [reflexivity|].
  destruct (details event !! "query") as [domain|]; [|reflexivity].
  case_bool_decide; [reflexivity|].
  by destruct (_ || _).
Qed.

(** C9, as the code has it: the anomaly-scoring handler is stateless.  It
    leaves the store it was given, whether it returns or raises, and its
    turn in the engine's loop changes no bucket of any rule; what it yields
    or raises is the same whatever the store holds; and on an event whose
    target field is missing or empty it yields no alert, and raises nothing
    but the coercion error of a [length_threshold] or [entropy_threshold]
    the rule supplies. *)
Theorem dns_anomaly_stateless (state : Buckets) (rule : DetectionRule) (event : Event) :
  (_handle_dns_anomaly state rule event).1 = state
  /\ (rule_type rule = "dns_anomaly" ->
      forall st id key,
        bucket_of (process_rule event st rule).1.1 id key = bucket_of st id key)
  /\ (forall other,
        (_handle_dns_anomaly other rule event).2
        = (_handle_dns_anomaly state rule event).2)
  /\ (details event !! "query" = None \/ details event !! "query" = Some "" ->
      _handle_dns_anomaly state rule event = (state, Ok [])
      \/ exists e,
           _handle_dns_anomaly state rule event = (state, Raise e)
           /\ ((exists v, parameters rule !! "length_threshold" = Some v
                          /\ py_int v = Raise e)
               \/ (exists v, parameters rule !! "entropy_threshold" = Some v
                             /\ py_float v = Raise e))).
Proof.
  split; [|split; [|split]].
  - apply _handle_dns_anomaly_store.
  - intros Ht st id key. unfold process_rule. rewrite Ht, _HANDLERS_dns_anomaly.
    pose proof (_handle_dns_anomaly_store (default ∅ (st !! rule_id rule)) rule event) as Hst.
    assert (Hsame : bucket_of (<[rule_id rule := default ∅ (st !! rule_id rule)]> st) id key
                    = bucket_of st id key).
    { unfold bucket_of. destruct (decide (rule_id rule = id)) as [<-|Hne].
      - rewrite lookup_insert_eq. by destruct (st !! rule_id rule).
      - by rewrite lookup_insert_ne. }
    destruct (_handle_dns_anomaly _ rule event) as [buckets' [alerts|e]];
      cbn [fst] in *; by subst buckets'.
  - intros other. apply _handle_dns_anomaly_yielded.
  - intros Hmissing. run_dns.
    + left. destruct (negb _); [reflexivity|].
      destruct Hmissing as [-> | ->]; [reflexivity|].
      by rewrite bool_decide_eq_true_2.
    + right. exists e. split; [reflexivity|]. right.
      unfold params_get in *.
      destruct (parameters rule !! "entropy_threshold") as [v|]; [by exists v | discriminate].
    + right. exists e. split; [reflexivity|]. left.
      unfold params_get in *.
      destruct (parameters rule !! "length_threshold") as [v|]; [by exists v | discriminate].
Qed.


End Dns_anomaly.

(** ** Eviction *)

Section Eviction.

Lemma popleft_while_older_suffix (bucket : list Event) (cutoff : Z) :
  popleft_while_older bucket cutoff `suffix_of` bucket.
Proof.
  induction bucket as [|e bucket IH]; simpl; [done|].
  destruct (timestamp e <? cutoff); [by apply suffix_cons_r | done].
Qed.

(** Nothing is evicted from a bucket whose events are all within the
    window. *)
Lemma popleft_while_older_keep (bucket : list Event) (cutoff : Z) :
  Forall (fun e => cutoff <= timestamp e) bucket ->
  popleft_while_older bucket cutoff = bucket.
Proof.
  destruct 1 as [|e bucket He _]; simpl; [done|].
  by rewrite (proj2 (Z.ltb_ge _ _) He).
Qed.

(** On a bucket in timestamp order, what is left is within the window. *)
Lemma popleft_while_older_sorted (bucket : list Event) (cutoff : Z) :
  StronglySorted (fun e e' => timestamp e <= timestamp e') bucket ->
  Forall (fun e => cutoff <= timestamp e) (popleft_while_older bucket cutoff).
Proof.
  induction 1 as [|e bucket Hsorted IH Hle]; simpl; [done|].
  destruct (timestamp e <? cutoff) eqn:Hold; [done|].
  apply Z.ltb_ge in Hold. constructor; [done|].
  eapply Forall_impl; [exact Hle|]. simpl. intros e' ?. lia.
Qed.

Lemma suffix_Forall {A : Type} (P : A -> Prop) (l k : list A) :
  l `suffix_of` k -> Forall P k -> Forall P l.
Proof. intros [k' ->] Hk. by apply Forall_app in Hk as [_ ?]. Qed.


(** [_evict_old] returns the evicted bucket when the cutoff can be
    computed, and raises [OverflowError] when it cannot. *)
Lemma _evict_old_cases (bucket : list Event) (ts W : Z) :
  (cutoff_in_range ts W /\ _evict_old bucket ts W = Ok (evicted bucket ts W))
  \/ (~ cutoff_in_range ts W /\ _evict_old bucket ts W = Raise OverflowError).
Proof.
  unfold _evict_old, timedelta_minutes, datetime_sub, cutoff_in_range, evicted.
  destruct (-999999999 <=? W / 1440) eqn:Hlo; cbn [andb mbind result_bind];
    [|right; split; [lia | reflexivity]].
  destruct (W / 1440 <=? 999999999) eqn:Hhi; cbn [andb mbind result_bind];
    [|right; split; [lia | reflexivity]].
  destruct (datetime_min <=? ts - minutes W) eqn:Hmin; cbn [andb mbind result_bind];
    [|right; split; [lia | reflexivity]].
  destruct (ts - minutes W <=? datetime_max) eqn:Hmax; cbn [andb mbind result_bind];
    [|right; split; [lia | reflexivity]].
  left. split; [lia | reflexivity].
Qed.


Lemma _evict_old_in_range (bucket : list Event) (ts W : Z) :
  cutoff_in_range ts W -> _evict_old bucket ts W = Ok (evicted bucket ts W).
Proof. intros Hin. by destruct (_evict_old_cases bucket ts W) as [[_ ?]|[? _]]. Qed.

Lemma _evict_old_overflow (bucket : list Event) (ts W : Z) :
  ~ cutoff_in_range ts W -> _evict_old bucket ts W = Raise OverflowError.
Proof. intros Hout. by destruct (_evict_old_cases bucket ts W) as [[? _]|[_ ?]]. Qed.

End Eviction.

(** ** The windowed handlers, case by case *)

Section Windowed_handlers.
Context `{PyRuntime}.

(** The four ways a call of the threshold-count handler ends once its
    parameters are coerced: the event is filtered out; it is appended and
    the cutoff cannot be computed, so that [_evict_old] raises and the event
    stays; it is appended, the bucket is evicted and stays below the
    threshold; or the bucket reaches it, is yielded in one alert and
    cleared. *)
Lemma _handle_failed_login_cases (state : Buckets) (rule : DetectionRule) (event : Event)
    (T W : Z) :
  py_int (params_get (parameters rule) "threshold" (VInt 5)) = Ok T ->
  py_int (params_get (parameters rule) "window_minutes" (VInt 10)) = Ok W ->
  let key := group_key rule "username" event in
  let appended := default [] (state !! key) ++ [event] in
  let bucket := evicted appended (timestamp event) W in
  (login_matches rule event = false
   /\ _handle_failed_login state rule event = (state, Ok []))
  \/ (login_matches rule event = true
      /\ ~ window_in_range W event
      /\ _handle_failed_login state rule event
         = (<[key := appended]> state, Raise OverflowError))
  \/ (login_matches rule event = true
      /\ window_in_range W event
      /\ Z.of_nat (length bucket) < T
      /\ _handle_failed_login state rule event = (<[key := bucket]> state, Ok []))
  \/ (login_matches rule event = true
      /\ window_in_range W event
      /\ T <= Z.of_nat (length bucket)
      /\ exists alert,
           events alert = bucket
           /\ _handle_failed_login state rule event = (<[key := []]> state, Ok [alert])).
Proof.
  intros HT HW. cbv zeta. unfold _handle_failed_login, login_matches, group_key.
  rewrite HT, HW.
  destruct (str_eq _ _); cbn [negb andb]; [|by left].
  destruct (opt_str_eq _ _); cbn [negb]; [|by left].
  right.
  match goal with
  | |- context [_evict_old ?b ?ts W] =>
      destruct (_evict_old_cases b ts W) as [[Hin ->]|[Hout ->]]
  end; [|by left].
  right.
  match goal with
  | |- context [Z.of_nat ?n >=? T] => destruct (Z.of_nat n >=? T) eqn:Hfull
  end.
  - right. split; [done|]. split; [done|]. split; [lia|].
    eexists. split; [|reflexivity]. reflexivity.
  - left. split; [done|]. split; [done|]. split; [lia|done].
Qed.

(** The same for the distinct-value handler: the filter is the category
    alone, and the trigger is the number of distinct values, [None]
    included, that [distinct_field] takes in the bucket. *)
Lemma _handle_port_scan_cases (state : Buckets) (rule : DetectionRule) (event : Event)
    (T W : Z) :
  py_int (params_get (parameters rule) "threshold" (VInt 15)) = Ok T ->
  py_int (params_get (parameters rule) "window_minutes" (VInt 5)) = Ok W ->
  let key := group_key rule "src_ip" event in
  let appended := default [] (state !! key) ++ [event] in
  let bucket := evicted appended (timestamp event) W in
  let unique_values : gset (option string) :=
    list_to_set
      ((fun e => dict_get (details e)
                   (params_get (parameters rule) "distinct_field" (VStr "dest_port")))
       <$> bucket) in
  let category' := params_get (parameters rule) "event_category" (VStr "network") in
  (str_eq (category event) category' = false
   /\ _handle_port_scan state rule event = (state, Ok []))
  \/ (str_eq (category event) category' = true
      /\ ~ window_in_range W event
      /\ _handle_port_scan state rule event
         = (<[key := appended]> state, Raise OverflowError))
  \/ (str_eq (category event) category' = true
      /\ window_in_range W event
      /\ Z.of_nat (size unique_values) < T
      /\ _handle_port_scan state rule event = (<[key := bucket]> state, Ok []))
  \/ (str_eq (category event) category' = true
      /\ window_in_range W event
      /\ T <= Z.of_nat (size unique_values)
      /\ exists alert,
           events alert = bucket
           /\ _handle_port_scan state rule event = (<[key := []]> state, Ok [alert])).
Proof.
  intros HT HW. cbv zeta. unfold _handle_port_scan, group_key.
  rewrite HT, HW.
  destruct (str_eq _ _); cbn [negb]; [|by left].
  right.
  match goal with
  | |- context [_evict_old ?b ?ts W] =>
      destruct (_evict_old_cases b ts W) as [[Hin ->]|[Hout ->]]
  end; [|by left].
  right.
  match goal with
  | |- context [Z.of_nat ?n >=? T] => destruct (Z.of_nat n >=? T) eqn:Hfull
  end.
  - right. split; [done|]. split; [done|]. split; [lia|].
    eexists. split; [|reflexivity]. reflexivity.
  - left. split; [done|]. split; [done|]. split; [lia|done].
Qed.

(** Whatever handler the table holds for a rule, a call leaves each bucket
    as it was, or empty, or as the old bucket with the event appended and
    the entries older than the rule's window evicted, or, when the cutoff
    cannot be computed and the call raises [OverflowError], as the old
    bucket with the event appended. *)
Lemma handler_bucket_step (handler : Handler) (state : Buckets)
    (rule : DetectionRule) (event : Event) :
  _HANDLERS !! rule_type rule = Some handler ->
  forall key,
    (handler state rule event).1 !! key = state !! key
    \/ (handler state rule event).1 !! key = Some []
    \/ (exists W, window_minutes_of rule = Ok W
          /\ window_in_range W event
          /\ (handler state rule event).1 !! key
             = Some (evicted (default [] (state !! key) ++ [event]) (timestamp event) W))
    \/ (exists W, window_minutes_of rule = Ok W
          /\ ~ window_in_range W event
          /\ (handler state rule event).2 = Raise OverflowError
          /\ (handler state rule event).1 !! key
             = Some (default [] (state !! key) ++ [event])).
Proof.
  intros Hh key.
  apply _HANDLERS_inv in Hh as [[Ht ->]|[[Ht ->]|[Ht ->]]].
  - destruct (py_int (params_get (parameters rule) "threshold" (VInt 5))) as [T|e] eqn:HT;
      [|unfold _handle_failed_login; rewrite HT; by left].
    destruct (py_int (params_get (parameters rule) "window_minutes" (VInt 10))) as [W|e] eqn:HW;
      [|unfold _handle_failed_login; rewrite HT, HW; by left].
    assert (HWr : window_minutes_of rule = Ok W).
    { unfold window_minutes_of. by rewrite Ht. }
    destruct (_handle_failed_login_cases state rule event T W HT HW)
      as [[_ ->]|[(_ & Hout & ->)|[(_ & Hin & _ & ->)|(_ & Hin & _ & alert & _ & ->)]]];
      cbn [fst snd].
    + by left.
    + destruct (decide (group_key rule "username" event = key)) as [<-|Hne].
      * right; right; right. exists W. by rewrite lookup_insert_eq.
      * left. by rewrite lookup_insert_ne.
    + destruct (decide (group_key rule "username" event = key)) as [<-|Hne].
      * right; right; left. exists W. by rewrite lookup_insert_eq.
      * left. by rewrite lookup_insert_ne.
    + destruct (decide (group_key rule "username" event = key)) as [<-|Hne].
      * right; left. by rewrite lookup_insert_eq.
      * left. by rewrite lookup_insert_ne.
  - destruct (py_int (params_get (parameters rule) "threshold" (VInt 15))) as [T|e] eqn:HT;
      [|unfold _handle_port_scan; rewrite HT; by left].
    destruct (py_int (params_get (parameters rule) "window_minutes" (VInt 5))) as [W|e] eqn:HW;
      [|unfold _handle_port_scan; rewrite HT, HW; by left].
    assert (HWr : window_minutes_of rule = Ok W).
    { unfold window_minutes_of. by rewrite Ht. }
    destruct (_handle_port_scan_cases state rule event T W HT HW)
      as [[_ ->]|[(_ & Hout & ->)|[(_ & Hin & _ & ->)|(_ & Hin & _ & alert & _ & ->)]]];
      cbn [fst snd].
    + by left.
    + destruct (decide (group_key rule "src_ip" event = key)) as [<-|Hne].
      * right; right; right. exists W. by rewrite lookup_insert_eq.
      * left. by rewrite lookup_insert_ne.
    + destruct (decide (group_key rule "src_ip" event = key)) as [<-|Hne].
      * right; right; left. exists W. by rewrite lookup_insert_eq.
      * left. by rewrite lookup_insert_ne.
    + destruct (decide (group_key rule "src_ip" event = key)) as [<-|Hne].
      * right; left. by rewrite lookup_insert_eq.
      * left. by rewrite lookup_insert_ne.
  - left. by rewrite _handle_dns_anomaly_store.
Qed.

End Windowed_handlers.

(** ** The distinct-value handler and the match filter *)

Section Port_scan.
Context `{PyRuntime}.


End Port_scan.

(** ** The buckets of one rule across a run *)

Section Rule_buckets.
Context `{PyRuntime}.

Lemma bucket_of_default (st : Store) (id key : string) :
  default ∅ (st !! id) !! key = bucket_of st id key.
Proof. unfold bucket_of. by destruct (st !! id). Qed.

(** The turn of a rule with another id leaves the buckets alone. *)
Lemma process_rule_other (event : Event) (st : Store) (other : DetectionRule)
    (id key : string) :
  rule_id other <> id ->
  bucket_of (process_rule event st other).1.1 id key = bucket_of st id key.
Proof.
  intros Hne. unfold process_rule.
  destruct (_HANDLERS !! rule_type other) as [handler|]; [|done].
  destruct (handler _ other event) as [buckets' [alerts|e]];
    cbn [fst]; unfold bucket_of; by rewrite lookup_insert_ne.
Qed.

(** The turn of a rule, seen from its own buckets. *)
Lemma process_rule_own (event : Event) (st : Store) (rule : DetectionRule) (key : string) :
  bucket_of (process_rule event st rule).1.1 (rule_id rule) key = bucket_of st (rule_id rule) key
  \/ bucket_of (process_rule event st rule).1.1 (rule_id rule) key = Some []
  \/ (exists W, window_minutes_of rule = Ok W
        /\ window_in_range W event
        /\ bucket_of (process_rule event st rule).1.1 (rule_id rule) key
           = Some (evicted (default [] (bucket_of st (rule_id rule) key) ++ [event])
                           (timestamp event) W))
  \/ (exists W, window_minutes_of rule = Ok W
        /\ ~ window_in_range W event
        /\ (process_rule event st rule).2 = Some OverflowError
        /\ bucket_of (process_rule event st rule).1.1 (rule_id rule) key
           = Some (default [] (bucket_of st (rule_id rule) key) ++ [event])).
Proof.
  unfold process_rule.
  destruct (_HANDLERS !! rule_type rule) as [handler|] eqn:Hh; [|by left].
  pose proof (handler_bucket_step handler (default ∅ (st !! rule_id rule)) rule event Hh key)
    as Hstep.
  rewrite !bucket_of_default in Hstep.
  assert (Hnew : forall buckets',
            bucket_of (<[rule_id rule := buckets']> st) (rule_id rule) key = buckets' !! key).
  { intros buckets'. unfold bucket_of. by rewrite lookup_insert_eq. }
  destruct (handler _ rule event) as [buckets' [alerts|e]]; cbn [fst snd] in *;
    rewrite Hnew.
  - destruct Hstep as [?|[?|[(W & ? & ? & ?)|(W & ? & ? & ? & ?)]]]; [auto | auto | | done].
    right; right; left. by exists W.
  - destruct Hstep as [?|[?|[(W & ? & ? & ?)|(W & ? & ? & [= ->] & ?)]]]; [auto | auto | |].
    + right; right; left. by exists W.
    + right; right; right. by exists W.
Qed.

Section One_rule.
Variable rule : DetectionRule.
Variable retained : list DetectionRule.
(** No other retained rule shares the rule's id. *)
Hypothesis Hid : forall other, other ∈ retained -> rule_id other = rule_id rule -> other = rule.

(** A property of buckets that holds of the empty bucket and that the
    admission of [event] keeps, with the eviction or, when the cutoff
    cannot be computed, without it, holds of all the rule's buckets after
    the event has gone through the retained rules, however that ends. *)
Lemma process_event_buckets (I : list Event -> Prop) (event : Event) :
  I [] ->
  (forall bucket W, window_minutes_of rule = Ok W -> window_in_range W event -> I bucket ->
     I (evicted (bucket ++ [event]) (timestamp event) W)) ->
  (forall bucket W, window_minutes_of rule = Ok W -> ~ window_in_range W event -> I bucket ->
     I (bucket ++ [event])) ->
  forall st,
    (forall key bucket, bucket_of st (rule_id rule) key = Some bucket -> I bucket) ->
    forall key bucket,
      bucket_of (process_event retained st event).1.1 (rule_id rule) key = Some bucket ->
      I bucket.
Proof.
  intros Hnil Hstep Hover st Hst. unfold process_event.
  apply (for_each_invariant (process_rule event)
           (fun st => forall key bucket, bucket_of st (rule_id rule) key = Some bucket -> I bucket)
           (fun _ => True) retained); [|done].
  clear st Hst. intros st other Hin Hst. split; [|by apply Forall_true].
  intros key bucket.
  destruct (decide (rule_id other = rule_id rule)) as [Heq|Hne].
  - rewrite (Hid other Hin Heq).
    assert (Hold : I (default [] (bucket_of st (rule_id rule) key))).
    { destruct (bucket_of st (rule_id rule) key) as [old|] eqn:Hold; [by eapply Hst | done]. }
    destruct (process_rule_own event st rule key)
      as [->|[->|[(W & HW & Hin' & ->)|(W & HW & Hout & _ & ->)]]].
    + apply Hst.
    + by intros [= <-].
    + intros [= <-]. by apply Hstep.
    + intros [= <-]. by eapply Hover.
  - rewrite process_rule_other by done. apply Hst.
Qed.

End One_rule.

End Rule_buckets.

(** ** Window eviction *)

Section Window_eviction.
Context `{PyRuntime}.

Lemma bucket_ok_nil (W t : Z) : bucket_ok W t [].
Proof.
  split; [constructor|]. split; [constructor|]. by intros e latest []%elem_of_nil.
Qed.

Lemma bucket_ok_mono (W t t' : Z) (bucket : list Event) :
  t <= t' -> bucket_ok W t bucket -> bucket_ok W t' bucket.
Proof.
  intros Hle (Hsorted & Hbound & Hwin). split; [done|]. split; [|done].
  eapply Forall_impl; [exact Hbound|]. simpl. intros e ?. lia.
Qed.

Lemma bucket_ok_appended (W t : Z) (bucket : list Event) (event : Event) :
  t <= timestamp event ->
  bucket_ok W t bucket ->
  StronglySorted (fun e e' => timestamp e <= timestamp e') (bucket ++ [event])
  /\ Forall (fun e => timestamp e <= timestamp event) (bucket ++ [event]).
Proof.
  intros Hle (Hsorted & Hbound & _). split.
  - apply StronglySorted_app. split; [|split]; [|done|].
    + intros e e' He ->%list_elem_of_singleton.
      rewrite Forall_forall in Hbound. specialize (Hbound e He). simpl in Hbound. lia.
    + repeat constructor.
  - apply Forall_app. split.
    + eapply Forall_impl; [exact Hbound|]. simpl. intros e ?. lia.
    + repeat constructor. lia.
Qed.

(** Admitting an event no earlier than the bucket's events: after the
    eviction the bucket is again in order and within the window. *)
Lemma bucket_ok_admit (W t : Z) (bucket : list Event) (event : Event) :
  t <= timestamp event ->
  bucket_ok W t bucket ->
  bucket_ok W (timestamp event) (evicted (bucket ++ [event]) (timestamp event) W).
Proof.
  intros Hle Hok.
  destruct (bucket_ok_appended W t bucket event Hle Hok) as [Hsorted' Hbound'].
  unfold evicted.
  pose proof (popleft_while_older_suffix (bucket ++ [event])
                (timestamp event - minutes W)) as Hsuffix.
  pose proof (popleft_while_older_sorted _ (timestamp event - minutes W) Hsorted') as Hkept.
  pose proof (suffix_Forall _ _ _ Hsuffix Hbound') as Hbound''.
  split; [|split; [done|]].
  - destruct Hsuffix as [dropped Heq]. rewrite Heq in Hsorted'.
    by apply StronglySorted_app_1_r in Hsorted'.
  - intros e latest He Hlatest. rewrite Forall_forall in Hkept, Hbound''.
    specialize (Hkept e He). specialize (Hbound'' latest Hlatest). simpl in *. lia.
Qed.

(** When the cutoff cannot be computed and is not beyond [datetime.max], it
    lies before [datetime.min]: the event stays appended, nothing is
    evicted, and every event of the bucket is within the window all the
    same. *)
Lemma bucket_ok_overflow (W t : Z) (bucket : list Event) (event : Event) :
  t <= timestamp event ->
  is_datetime event ->
  timestamp event - minutes W <= datetime_max ->
  ~ window_in_range W event ->
  Forall is_datetime bucket ->
  bucket_ok W t bucket ->
  bucket_ok W (timestamp event) (bucket ++ [event]).
Proof.
  intros Hle Hevent Hmax Hout Hvalid Hok.
  destruct (bucket_ok_appended W t bucket event Hle Hok) as [Hsorted' Hbound'].
  split; [done|]. split; [done|].
  assert (Hbefore : timestamp event - minutes W < datetime_min).
  { clear Hvalid Hok Hsorted' Hbound'.
    unfold window_in_range, cutoff_in_range, is_datetime, minutes,
      datetime_min, datetime_max in *.
    pose proof (Z.div_mod W 1440 ltac:(lia)) as Hdiv.
    pose proof (Z.mod_pos_bound W 1440 ltac:(lia)) as Hmod.
    generalize dependent (W / 1440). generalize dependent (W mod 1440).
    intros r Hr q Hout Hq. lia. }
  assert (Hvalid' : Forall is_datetime (bucket ++ [event])).
  { apply Forall_app. split; [done|]. by apply Forall_singleton. }
  intros e latest He Hlatest. rewrite Forall_forall in Hbound', Hvalid'.
  specialize (Hbound' latest Hlatest). specialize (Hvalid' e He).
  unfold is_datetime in Hvalid'. simpl in *. lia.
Qed.

Section One_rule.
Variable rule : DetectionRule.
Variable retained : list DetectionRule.
Variable W : Z.
Hypothesis Hid : forall other, other ∈ retained -> rule_id other = rule_id rule -> other = rule.
Hypothesis HW : window_minutes_of rule = Ok W.

Let buckets_ok (t : Z) (st : Store) : Prop :=
  forall key bucket,
    bucket_of st (rule_id rule) key = Some bucket ->
    bucket_ok W t bucket /\ Forall is_datetime bucket.

Lemma process_event_buckets_ok (event : Event) (t : Z) (st : Store) :
  t <= timestamp event ->
  is_datetime event ->
  timestamp event - minutes W <= datetime_max ->
  buckets_ok t st ->
  buckets_ok (timestamp event) (process_event retained st event).1.1.
Proof.
  intros Hle Hevent Hmax Hst.
  assert (Hvalid : forall bucket, Forall is_datetime bucket ->
                                  Forall is_datetime (bucket ++ [event])).
  { intros bucket Hb. apply Forall_app. split; [done|]. by apply Forall_singleton. }
  refine (process_event_buckets rule retained Hid
            (fun bucket => bucket_ok W (timestamp event) bucket /\ Forall is_datetime bucket)
            event _ _ _ st _).
  - split; [apply bucket_ok_nil | constructor].
  - intros bucket W' HW' Hin [Hb Hv]. rewrite HW in HW'. injection HW' as <-. split.
    + apply bucket_ok_admit with (t := timestamp event); [lia | done].
    + eapply suffix_Forall; [apply popleft_while_older_suffix | by apply Hvalid].
  - intros bucket W' HW' Hout [Hb Hv]. rewrite HW in HW'. injection HW' as <-. split.
    + by apply bucket_ok_overflow with (t := timestamp event).
    + by apply Hvalid.
  - intros key bucket Hb. destruct (Hst key bucket Hb) as [Hok Hv]. split; [|done].
    eapply bucket_ok_mono; [exact Hle | done].
Qed.

Lemma process_events_buckets_ok (events : list Event) :
  StronglySorted Z.le (timestamp <$> events) ->
  Forall is_datetime events ->
  Forall (fun e => timestamp e - minutes W <= datetime_max) events ->
  forall t st,
    Forall (fun event => t <= timestamp event) events ->
    buckets_ok t st ->
    exists t', buckets_ok t' (for_each (process_event retained) st events).1.1.
Proof.
  induction events as [|event events IH]; intros Hsorted Hvalid Hmax t st Hlater Hst; simpl.
  - by exists t.
  - rewrite fmap_cons in Hsorted.
    apply StronglySorted_cons in Hsorted as [Hhead Hsorted].
    apply Forall_cons in Hlater as [Hle _].
    apply Forall_cons in Hvalid as [Hevent Hvalid].
    apply Forall_cons in Hmax as [Hcut Hmax].
    pose proof (process_event_buckets_ok event t st Hle Hevent Hcut Hst) as Hst1.
    destruct (process_event retained st event) as [[st1 out1] [e|]]; simpl in *.
    + by exists (timestamp event).
    + destruct (IH Hsorted Hvalid Hmax (timestamp event) st1) as [t' Ht']; [|done|].
      { by rewrite Forall_fmap in Hhead. }
      destruct (for_each (process_event retained) st1 events) as [[st2 out2] exn].
      by exists t'.
Qed.

End One_rule.

(** C5, as the code has it: a rule with [window_minutes = W] keeps its
    buckets within the window as long as no cutoff lies beyond
    [datetime.max], which no window that is not negative makes it do.
    After a run over events in non-decreasing timestamp order, however the
    run ends, every event left in a bucket of the rule is at most [W]
    minutes older than any event of that bucket, the latest one included.
    Rule ids are unique in the data model, and the store is keyed by them;
    the statement needs no more than that no other retained rule has this
    rule's id. *)
Theorem window_eviction_invariant (configured : list DetectionRule) (events : list Event)
    (rule : DetectionRule) (W : Z) :
  let self := DetectionEngine_init configured in
  rule ∈ rules self ->
  (forall other, other ∈ rules self -> rule_id other = rule_id rule -> other = rule) ->
  window_minutes_of rule = Ok W ->
  Sorted Z.le (timestamp <$> events) ->
  Forall is_datetime events ->
  Forall (fun e => timestamp e - minutes W <= datetime_max) events ->
  forall key bucket e latest,
    bucket_of (state (process self events).1.1) (rule_id rule) key = Some bucket ->
    e ∈ bucket -> latest ∈ bucket ->
    timestamp latest - minutes W <= timestamp e.
Proof.
  intros self _ Hid HW Hsorted Hvalid Hmax key bucket e latest.
  apply Sorted_StronglySorted in Hsorted; [|intros x y z; apply Z.le_trans].
  assert (Hrun : exists t, forall key bucket,
             bucket_of (for_each (process_event (rules self)) (state self) events).1.1
                       (rule_id rule) key = Some bucket ->
             bucket_ok W t bucket /\ Forall is_datetime bucket).
  { destruct events as [|event events].
    - exists 0. simpl. intros key' bucket'. unfold bucket_of. by rewrite lookup_empty.
    - apply (process_events_buckets_ok rule (rules self) W Hid HW _ Hsorted Hvalid Hmax
               (timestamp event)).
      + rewrite fmap_cons in Hsorted.
        apply StronglySorted_cons in Hsorted as [Hhead _].
        constructor; [lia|]. by rewrite Forall_fmap in Hhead.
      + intros key' bucket'. unfold bucket_of. simpl. by rewrite lookup_empty. }
  destruct Hrun as [t Hrun]. unfold process.
  destruct (for_each (process_event (rules self)) (state self) events) as [[st alerts] exn].
  simpl in *. intros Hb. by apply (Hrun key bucket Hb).
Qed.

End Window_eviction.

(** ** The threshold-count bucket bound *)

Section Threshold_bound.
Context `{PyRuntime}.

(** Dropping the pairing from a loop that yields attributed items. *)
Lemma for_each_erase {A B B' : Type} (g : B' -> B)
    (body : Store -> A -> Run B) (body' : Store -> A -> Run B') :
  (forall st x, body st x = ((body' st x).1.1, g <$> (body' st x).1.2, (body' st x).2)) ->
  forall l st,
    for_each body st l
    = ((for_each body' st l).1.1, g <$> (for_each body' st l).1.2, (for_each body' st l).2).
Proof.
  intros Hb. induction l as [|x l IH]; intros st; simpl; [reflexivity|].
  rewrite Hb. destruct (body' st x) as [[st1 out1] [e|]]; simpl; [reflexivity|].
  rewrite IH. destruct (for_each body' st1 l) as [[st2 out2] exn]; simpl.
  by rewrite fmap_app.
Qed.

(** [process] is [process_attributed] with the pairing dropped. *)
Lemma process_attributed_erase (self : DetectionEngine) (events : list Event) :
  process self events
  = ((process_attributed self events).1.1,
     snd <$> (process_attributed self events).1.2,
     (process_attributed self events).2).
Proof.
  unfold process, process_attributed.
  rewrite (for_each_erase snd (process_event (rules self))
             (fun st event => for_each (process_rule_attributed event) st (rules self))).
  - by destruct (for_each _ (state self) events) as [[? ?] ?].
  - intros st event. unfold process_event. apply for_each_erase.
    intros st' rule. unfold process_rule_attributed.
    destruct (process_rule event st' rule) as [[st1 out1] exn]; simpl.
    rewrite <- list_fmap_compose. by rewrite list_fmap_id.
Qed.

Section One_rule.
Variable rule : DetectionRule.
Variable retained : list DetectionRule.
Variable T : Z.
Hypothesis Hid : forall other, other ∈ retained -> rule_id other = rule_id rule -> other = rule.
Hypothesis Htype : rule_type rule = "failed_login_threshold".
Hypothesis HT : py_int (params_get (parameters rule) "threshold" (VInt 5)) = Ok T.
Hypothesis Hpos : 1 <= T.





End One_rule.


End Threshold_bound.

(** ** Threshold trigger and reset *)

Section Threshold_trigger.
Context `{PyRuntime}.

Section One_rule.
Variable rule : DetectionRule.
Variables T W : Z.
Variable key : string.
Hypothesis Htype : rule_type rule = "failed_login_threshold".
Hypothesis HT : py_int (params_get (parameters rule) "threshold" (VInt 5)) = Ok T.
Hypothesis HW : py_int (params_get (parameters rule) "window_minutes" (VInt 10)) = Ok W.



End One_rule.


End Threshold_trigger.

(** ** The statements at concrete inputs

    The runs below are evaluated with the reference runtime. *)

Section Examples.
Import Scenario.
Local Existing Instance ref_runtime.

Local Ltac in_range :=
  unfold window_in_range, cutoff_in_range, is_datetime;
  vm_compute; repeat split; discriminate.

Local Ltac all_in_range :=
  repeat (apply Forall_cons; split; [in_range|]); by apply Forall_nil.





(** C3 at its failing input: under a threshold of 2, one connection to port
    80 and one without a destination port carry a single present value, and
    the handler counts two and yields the alert. *)
Lemma port_scan_counts_missing_field :
  details (conn_no_port 1) !! "dest_port" = None
  /\ (fun alert => (description alert, events alert))
       <$> (process (DetectionEngine_init [scan_rule])
                    [conn 0 "80" "allowed"; conn_no_port 1]).1.2
     = [("Observed potential port scan with 2 unique dest_port values.",
         [conn 0 "80" "allowed"; conn_no_port 1])].
Proof. split; vm_compute; reflexivity. Qed.


(** The spec's entropy scenario, thresholds 45 and 3.5: ten times the
    letter a yields nothing, a domain of nineteen distinct characters yields
    one alert. *)
Example entropy_scenario :
  (process (DetectionEngine_init [dns_rule]) [query 0 "aaaaaaaaaa"]).1.2 = []
  /\ events <$> (process (DetectionEngine_init [dns_rule])
                        [query 0 "x7q$kz9!pLmN2vRtYw8"]).1.2
     = [[query 0 "x7q$kz9!pLmN2vRtYw8"]].
Proof. split; vm_compute; reflexivity. Qed.


(** Failed logins at minutes 0, 2 and 11 under a window of 10 minutes: the
    third evicts the first, and the two that remain are 9 minutes apart. *)
Lemma window_eviction_invariant_witness :
  (login_rule ∈ rules (DetectionEngine_init [login_rule; dns_rule])
   /\ window_minutes_of login_rule = Ok 10
   /\ Sorted Z.le (timestamp <$> [failed 0; failed 2; failed 11])
   /\ Forall is_datetime [failed 0; failed 2; failed 11]
   /\ Forall (fun e => timestamp e - minutes 10 <= datetime_max)
             [failed 0; failed 2; failed 11]
   /\ bucket_of (state (process (DetectionEngine_init [login_rule; dns_rule])
                                [failed 0; failed 2; failed 11]).1.1)
                (rule_id login_rule) "alice"
      = Some [failed 2; failed 11])
  /\ timestamp (failed 11) - minutes 10 <= timestamp (failed 2).
Proof.
  assert (Hrules : rules (DetectionEngine_init [login_rule; dns_rule])
                   = [login_rule; dns_rule]) by reflexivity.
  assert (Hin : login_rule ∈ rules (DetectionEngine_init [login_rule; dns_rule])).
  { rewrite Hrules. left. }
  assert (Hsorted : Sorted Z.le (timestamp <$> [failed 0; failed 2; failed 11])).
  { repeat constructor; by apply Z.leb_le. }
  assert (Hvalid : Forall is_datetime [failed 0; failed 2; failed 11]) by all_in_range.
  assert (Hmax : Forall (fun e => timestamp e - minutes 10 <= datetime_max)
                        [failed 0; failed 2; failed 11]).
  { repeat (apply Forall_cons; split; [vm_compute; discriminate|]). by apply Forall_nil. }
  split; [repeat split; (assumption || reflexivity)|].
  apply (window_eviction_invariant [login_rule; dns_rule] [failed 0; failed 2; failed 11]
           login_rule 10 Hin) with (key := "alice") (bucket := [failed 2; failed 11]).
  - intros other Hother Hid. rewrite Hrules in Hother.
    repeat (apply elem_of_cons in Hother as [->|Hother]);
      [reflexivity | discriminate | by apply elem_of_nil in Hother].
  - reflexivity.
  - exact Hsorted.
  - exact Hvalid.
  - exact Hmax.
  - reflexivity.
  - left.
  - right. left.
Defined.

(** C5, as stated, fails.  Under a window of -5000000000 minutes the cutoff
    of a failed login in 1970 lies beyond year 9999: [_evict_old] raises
    [OverflowError] once the event is appended, and the event left in the
    bucket is older than the cutoff counted from itself. *)
Lemma window_eviction_overflows :
  (window_minutes_of login_rule_ahead = Ok (-5000000000)
   /\ Sorted Z.le (timestamp <$> [failed 0])
   /\ is_datetime (failed 0)
   /\ datetime_max < timestamp (failed 0) - minutes (-5000000000))
  /\ (process (DetectionEngine_init [login_rule_ahead]) [failed 0]).2 = Some OverflowError
  /\ bucket_of (state (process (DetectionEngine_init [login_rule_ahead]) [failed 0]).1.1)
               (rule_id login_rule_ahead) "alice"
     = Some [failed 0]
  /\ ~ (timestamp (failed 0) - minutes (-5000000000) <= timestamp (failed 0)).
Proof.
  split; [|split; [|split]]; try (vm_compute; reflexivity).
  - split; [reflexivity|]. split; [repeat constructor|].
    split; [in_range | vm_compute; reflexivity].
  - vm_compute. intros Hle. by apply Hle.
Qed.

Lemma uncoercible_parameter_raises_witness :
  (login_rule_bad ∈ rules (DetectionEngine_init [login_rule_bad])
   /\ uncoercible login_rule_bad)
  /\ is_Some (process (DetectionEngine_init [login_rule_bad]) [failed 0; failed 2]).2
  /\ process (DetectionEngine_init [login_rule_bad]) [failed 0; failed 2]
     = process (DetectionEngine_init [login_rule_bad]) [failed 0].
Proof.
  assert (Hin : login_rule_bad ∈ rules (DetectionEngine_init [login_rule_bad])).
  { change (login_rule_bad ∈ [login_rule_bad]). left. }
  assert (Hbad : uncoercible login_rule_bad).
  { apply (uncoercible_count _ "threshold" (VStr "three") ValueError);
      [by left | by left | reflexivity | reflexivity]. }
  split; [by split|].
  apply (uncoercible_parameter_raises (DetectionEngine_init [login_rule_bad])
           login_rule_bad Hin Hbad).
Defined.

Lemma disabled_rule_inert_witness :
  enabled disabled_rule = false
  /\ DetectionEngine_init ([login_rule] ++ disabled_rule :: [dns_rule])
     = DetectionEngine_init ([login_rule] ++ [dns_rule])
  /\ (disabled_rule ∉ rules (DetectionEngine_init ([login_rule] ++ disabled_rule :: [dns_rule])))
  /\ forall events,
       process (DetectionEngine_init ([login_rule] ++ disabled_rule :: [dns_rule])) events
       = process (DetectionEngine_init ([login_rule] ++ [dns_rule])) events.
Proof.
  split; [reflexivity|].
  apply (disabled_rule_inert disabled_rule [login_rule] [dns_rule]). reflexivity.
Defined.

Lemma unregistered_rule_type_skipped_witness :
  _HANDLERS !! rule_type unknown_rule = None
  /\ process_rule (failed 0) ∅ unknown_rule = (∅, [], None).
Proof.
  split; [reflexivity|].
  apply (unregistered_rule_type_skipped unknown_rule). reflexivity.
Defined.

(** C9, as stated, fails on its last clause: under a rule whose
    [entropy_threshold] is the word high, an event without the target field
    makes the handler raise. *)
Lemma dns_anomaly_missing_field_raises :
  details (no_query 0) !! "query" = None
  /\ _handle_dns_anomaly ∅ dns_rule_bad (no_query 0) = (∅, Raise ValueError).
Proof. split; vm_compute; reflexivity. Qed.

Lemma dns_anomaly_stateless_witness :
  details (no_query 0) !! "query" = None
  /\ (_handle_dns_anomaly ∅ dns_rule (no_query 0) = (∅, Ok [])
      \/ exists e,
           _handle_dns_anomaly ∅ dns_rule (no_query 0) = (∅, Raise e)
           /\ ((exists v, parameters dns_rule !! "length_threshold" = Some v
                          /\ py_int v = Raise e)
               \/ (exists v, parameters dns_rule !! "entropy_threshold" = Some v
                             /\ py_float v = Raise e))).
Proof.
  split; [reflexivity|].
  apply (dns_anomaly_stateless ∅ dns_rule (no_query 0)). left. reflexivity.
Defined.



End Examples.

(** * Further properties of the code

    The statements below go beyond the claims: more of what
    [detectors.py] does, then the alert dispatcher of [alerting.py]. *)

(** ** Eviction, in full *)

Section Eviction_spec.

(** X1: [_evict_old] raises [OverflowError], before it touches the bucket,
    exactly when the cutoff cannot be computed.  When it returns it has
    popped from the left end only: it splits the bucket into the events it
    drops, each older than the cutoff, and the rest, which it keeps in order
    and which is empty or starts with an event within the window.  Events
    behind that first kept event stay, whatever their timestamps; and
    evicting again with the same cutoff changes nothing. *)
Theorem _evict_old_splits (bucket : list Event) (current_ts window_minutes : Z) :
  let cutoff := current_ts - minutes window_minutes in
  match _evict_old bucket current_ts window_minutes with
  | Ok kept =>
      cutoff_in_range current_ts window_minutes
      /\ (exists dropped,
            bucket = dropped ++ kept
            /\ Forall (fun e => timestamp e < cutoff) dropped)
      /\ (forall e rest, kept = e :: rest -> cutoff <= timestamp e)
      /\ _evict_old kept current_ts window_minutes = Ok kept
  | Raise e => e = OverflowError /\ ~ cutoff_in_range current_ts window_minutes
  end.
Proof.
  cbv zeta.
  destruct (_evict_old_cases bucket current_ts window_minutes) as [[Hin ->]|[Hout ->]];
    [|done].
  split; [done|]. rewrite (_evict_old_in_range _ _ _ Hin). unfold evicted.
  generalize (current_ts - minutes window_minutes). intros cutoff.
  assert (Hpop : (exists dropped,
                    bucket = dropped ++ popleft_while_older bucket cutoff
                    /\ Forall (fun e => timestamp e < cutoff) dropped)
                 /\ (forall e rest, popleft_while_older bucket cutoff = e :: rest ->
                                    cutoff <= timestamp e)
                 /\ popleft_while_older (popleft_while_older bucket cutoff) cutoff
                    = popleft_while_older bucket cutoff).
  { induction bucket as [|e bucket (Hsplit & Hhead & Hidem)]; simpl.
    - split; [by exists []|]. split; [discriminate|reflexivity].
    - destruct (timestamp e <? cutoff) eqn:Hold.
      + apply Z.ltb_lt in Hold. split; [|by split].
        destruct Hsplit as (dropped & Heq & Hdropped).
        exists (e :: dropped). split; [simpl; by f_equal | by constructor].
      + apply Z.ltb_ge in Hold. split; [by exists []|]. split.
        * by intros e' rest [= <- _].
        * simpl. by rewrite (proj2 (Z.ltb_ge _ _) Hold). }
  destruct Hpop as (Hsplit & Hhead & Hidem). by rewrite Hidem.
Qed.

End Eviction_spec.

(** ** The two windowed handlers, uniformly *)

Section Windowed_vocabulary.
Context `{PyRuntime}.

(** The threshold a windowed rule is configured with: its [threshold]
    parameter or, without one, the default of its handler. *)
Definition threshold_of (rule : DetectionRule) : result Z :=
  py_int (params_get (parameters rule) "threshold"
            (VInt (if bool_decide (rule_type rule = "port_scan") then 15 else 5))).

(** The filter of a windowed rule: the category and, for the
    threshold-count handler, the match field. *)
Definition admits (rule : DetectionRule) (event : Event) : bool :=
  if bool_decide (rule_type rule = "port_scan")
  then str_eq (category event)
              (params_get (parameters rule) "event_category" (VStr "network"))
  else login_matches rule event.

(** The grouping key a windowed rule derives from an event. *)
Definition grouping_key (rule : DetectionRule) (event : Event) : string :=
  group_key rule
    (if bool_decide (rule_type rule = "port_scan") then "src_ip" else "username") event.

(** What the distinct-value handler reads off an event: [None] when the
    field is absent. *)
Definition distinct_value (rule : DetectionRule) (event : Event) : option string :=
  dict_get (details event) (params_get (parameters rule) "distinct_field" (VStr "dest_port")).

(** The trigger of a windowed rule on a bucket: its size, or the number of
    distinct values in it, is at least the threshold. *)
Definition reaches (rule : DetectionRule) (T : Z) (bucket : list Event) : bool :=
  if bool_decide (rule_type rule = "port_scan")
  then Z.of_nat (size (list_to_set (C := gset (option string))
                         (distinct_value rule <$> bucket))) >=? T
  else Z.of_nat (length bucket) >=? T.

(** A rule whose type selects one of the two windowed handlers. *)
Definition windowed (rule : DetectionRule) : Prop :=
  rule_type rule = "failed_login_threshold" \/ rule_type rule = "port_scan".

(** The coercion returned. *)
Definition is_Some_ok {A : Type} (r : result A) : Prop :=
  match r with Ok _ => True | Raise _ => False end.

End Windowed_vocabulary.

Section Windowed_run.
Context `{PyRuntime}.

(** The four ways a call of a windowed handler ends once the rule's
    threshold and window are coerced. *)
Lemma windowed_handler_run (rule : DetectionRule) (handler : Handler)
    (state : Buckets) (event : Event) (T W : Z) :
  windowed rule ->
  _HANDLERS !! rule_type rule = Some handler ->
  threshold_of rule = Ok T ->
  window_minutes_of rule = Ok W ->
  let key := grouping_key rule event in
  let appended := default [] (state !! key) ++ [event] in
  let bucket := evicted appended (timestamp event) W in
  (admits rule event = false /\ handler state rule event = (state, Ok []))
  \/ (admits rule event = true /\ ~ window_in_range W event
      /\ handler state rule event = (<[key := appended]> state, Raise OverflowError))
  \/ (admits rule event = true /\ window_in_range W event
      /\ reaches rule T bucket = false
      /\ handler state rule event = (<[key := bucket]> state, Ok []))
  \/ (admits rule event = true /\ window_in_range W event
      /\ reaches rule T bucket = true
      /\ exists alert,
           events alert = bucket
           /\ priority alert = rule_severity rule
           /\ remediation alert = rule_remediation rule
           /\ alert_id alert
              = rule_id rule +:+ ":" +:+ key +:+ ":"
                +:+ int_repr (epoch_seconds (timestamp event))
           /\ handler state rule event = (<[key := []]> state, Ok [alert])).
Proof.
  intros [Ht|Ht] Hh HT HW; cbv zeta;
    unfold threshold_of, window_minutes_of, grouping_key, admits, reaches,
      distinct_value, group_key in *;
    rewrite Ht in *.
  - rewrite _HANDLERS_failed_login in Hh. injection Hh as <-.
    rewrite bool_decide_eq_false_2 in * by done.
    unfold _handle_failed_login, login_matches. rewrite HT, HW.
    destruct (str_eq _ _); cbn [negb andb]; [|by left].
    destruct (opt_str_eq _ _); cbn [negb]; [|by left].
    right.
    match goal with
    | |- context [_evict_old ?b ?ts W] =>
        destruct (_evict_old_cases b ts W) as [[Hin ->]|[Hout ->]]
    end; [|by left].
    right.
    match goal with
    | |- context [Z.of_nat ?n >=? T] => destruct (Z.of_nat n >=? T) eqn:Hfull
    end.
    + right. split; [done|]. split; [done|]. split; [done|].
      eexists. split; [|split; [|split; [|split; [|reflexivity]]]]; reflexivity.
    + left. split; [done|]. split; [done|]. by split.
  - rewrite _HANDLERS_port_scan in Hh. injection Hh as <-.
    rewrite bool_decide_eq_true_2 in * by done.
    unfold _handle_port_scan. rewrite HT, HW.
    destruct (str_eq _ _); cbn [negb]; [|by left].
    right.
    match goal with
    | |- context [_evict_old ?b ?ts W] =>
        destruct (_evict_old_cases b ts W) as [[Hin ->]|[Hout ->]]
    end; [|by left].
    right.
    match goal with
    | |- context [Z.of_nat ?n >=? T] => destruct (Z.of_nat n >=? T) eqn:Hfull
    end.
    + right. split; [done|]. split; [done|]. split; [done|].
      eexists. split; [|split; [|split; [|split; [|reflexivity]]]]; reflexivity.
    + left. split; [done|]. split; [done|]. by split.
Qed.

(** When a coercion of a windowed rule raises, the handler raises that
    exception on every store and event, and leaves the store as it was. *)
Lemma windowed_handler_uncoerced (rule : DetectionRule) (handler : Handler)
    (state : Buckets) (event : Event) :
  windowed rule ->
  _HANDLERS !! rule_type rule = Some handler ->
  (exists T W, threshold_of rule = Ok T /\ window_minutes_of rule = Ok W)
  \/ (exists e,
        (threshold_of rule = Raise e
         \/ (is_Some_ok (threshold_of rule) /\ window_minutes_of rule = Raise e))
        /\ handler state rule event = (state, Raise e)).
Proof.
  intros [Ht|Ht] Hh; unfold threshold_of, window_minutes_of, is_Some_ok; rewrite Ht in *.
  - rewrite _HANDLERS_failed_login in Hh. injection Hh as <-.
    rewrite bool_decide_eq_false_2 by done. unfold _handle_failed_login.
    destruct (py_int (params_get (parameters rule) "threshold" (VInt 5))) as [T|e];
      [|right; exists e; by split; [left|]].
    destruct (py_int (params_get (parameters rule) "window_minutes" (VInt 10))) as [W|e];
      [|right; exists e; by split; [right|]].
    left. by exists T, W.
  - rewrite _HANDLERS_port_scan in Hh. injection Hh as <-.
    rewrite bool_decide_eq_true_2 by done. unfold _handle_port_scan.
    destruct (py_int (params_get (parameters rule) "threshold" (VInt 15))) as [T|e];
      [|right; exists e; by split; [left|]].
    destruct (py_int (params_get (parameters rule) "window_minutes" (VInt 5))) as [W|e];
      [|right; exists e; by split; [right|]].
    left. by exists T, W.
Qed.

Lemma handler_windowed_or_dns (rule : DetectionRule) (handler : Handler) :
  _HANDLERS !! rule_type rule = Some handler ->
  windowed rule \/ (rule_type rule = "dns_anomaly" /\ handler = _handle_dns_anomaly).
Proof.
  intros Hh. apply _HANDLERS_inv in Hh as [[Ht _]|[[Ht _]|[Ht ->]]].
  - left. by left.
  - left. by right.
  - by right.
Qed.

End Windowed_run.

(** ** One rule's turn in the loop *)

Section Rule_turn.
Context `{PyRuntime}.

Lemma _handle_dns_anomaly_alerts (state : Buckets) (rule : DetectionRule)
    (event : Event) (alerts : list Alert) :
  (_handle_dns_anomaly state rule event).2 = Ok alerts ->
  alerts = []
  \/ exists alert,
       alerts = [alert]
       /\ events alert = [event]
       /\ priority alert = rule_severity rule
       /\ remediation alert = rule_remediation rule.
Proof.
  unfold _handle_dns_anomaly.
  destruct (py_int _); [|done]. destruct (py_float _); [|done].
  destruct (negb _); [intros [= <-]; by left|].
  destruct (details event !! "query") as [domain|]; [|intros [= <-]; by left].
  case_bool_decide; [intros [= <-]; by left|].
  destruct (_ || _); intros [= <-]; [right|by left].
  by eexists.
Qed.

Lemma bucket_of_insert (st : Store) (id : string) (buckets : Buckets) (id' key : string) :
  bucket_of (<[id := buckets]> st) id' key
  = if decide (id = id') then buckets !! key else bucket_of st id' key.
Proof.
  unfold bucket_of. rewrite lookup_insert. by case_decide.
Qed.

(** What the turn of a rule does, whatever its type: it leaves the buckets
    of the other ids alone; and either it changes no bucket and yields
    nothing, or a lone alert of the anomaly-scoring handler; or the rule is
    windowed, admits the event, and only the bucket of the event's grouping
    key changes: when the cutoff cannot be computed, to the old bucket with
    the event appended, and the turn raises [OverflowError]; otherwise to
    the evicted bucket or, with an alert carrying it, to the empty one. *)
Lemma process_rule_turn (event : Event) (st : Store) (rule : DetectionRule) :
  let turn := process_rule event st rule in
  let id := rule_id rule in
  let key := grouping_key rule event in
  (forall id' k, id' <> id -> bucket_of turn.1.1 id' k = bucket_of st id' k)
  /\ (((forall k, bucket_of turn.1.1 id k = bucket_of st id k)
       /\ (turn.1.2 = []
           \/ (rule_type rule = "dns_anomaly"
               /\ turn.2 = None
               /\ exists alert,
                    turn.1.2 = [alert]
                    /\ events alert = [event]
                    /\ priority alert = rule_severity rule
                    /\ remediation alert = rule_remediation rule)))
      \/ exists T W,
           windowed rule
           /\ threshold_of rule = Ok T
           /\ window_minutes_of rule = Ok W
           /\ admits rule event = true
           /\ (forall k, k <> key -> bucket_of turn.1.1 id k = bucket_of st id k)
           /\ let appended := default [] (bucket_of st id key) ++ [event] in
              let bucket := evicted appended (timestamp event) W in
              (~ window_in_range W event
               /\ turn.2 = Some OverflowError
               /\ turn.1.2 = []
               /\ bucket_of turn.1.1 id key = Some appended)
              \/ (window_in_range W event
                  /\ turn.2 = None
                  /\ ((reaches rule T bucket = false
                       /\ turn.1.2 = []
                       /\ bucket_of turn.1.1 id key = Some bucket)
                      \/ (reaches rule T bucket = true
                          /\ bucket_of turn.1.1 id key = Some []
                          /\ exists alert,
                               turn.1.2 = [alert]
                               /\ events alert = bucket
                               /\ priority alert = rule_severity rule
                               /\ remediation alert = rule_remediation rule
                               /\ alert_id alert
                                  = id +:+ ":" +:+ key +:+ ":"
                                    +:+ int_repr (epoch_seconds (timestamp event)))))).
Proof.
  cbv zeta. split.
  { intros id' k Hne. by apply process_rule_other. }
  unfold process_rule.
  destruct (_HANDLERS !! rule_type rule) as [handler|] eqn:Hh;
    [|left; split; [done | by left]].
  set (buckets := default ∅ (st !! rule_id rule)).
  assert (Hsame : forall k, bucket_of (<[rule_id rule := buckets]> st) (rule_id rule) k
                            = bucket_of st (rule_id rule) k).
  { intros k. rewrite bucket_of_insert, decide_True by done. apply bucket_of_default. }
  assert (Hset : forall k (b : list Event),
            bucket_of (<[rule_id rule := <[grouping_key rule event := b]> buckets]> st)
                      (rule_id rule) k
            = if decide (k = grouping_key rule event) then Some b
              else bucket_of st (rule_id rule) k).
  { intros k b. rewrite bucket_of_insert, decide_True by done. case_decide as Hk.
    - subst k. by rewrite lookup_insert_eq.
    - rewrite lookup_insert_ne by done. apply bucket_of_default. }
  destruct (handler_windowed_or_dns rule handler Hh) as [Hw|[Ht ->]].
  - destruct (windowed_handler_uncoerced rule handler buckets event Hw Hh)
      as [(T & W & HT & HW)|(e & _ & ->)]; [|left; split; [done | by left]].
    destruct (windowed_handler_run rule handler buckets event T W Hw Hh HT HW)
      as [[Hadm ->]|[(Hadm & Hout & ->)|[(Hadm & Hin & Hreach & ->)
          |(Hadm & Hin & Hreach & alert & Hev & Hpri & Hrem & Hid & ->)]]];
      cbn [fst snd].
    + left. split; [done | by left].
    + right. exists T, W. do 4 (split; [done|]).
      unfold buckets in *. rewrite bucket_of_default in *.
      split; [intros k Hk; by rewrite Hset, decide_False|].
      left. do 3 (split; [done|]). by rewrite Hset, decide_True.
    + right. exists T, W. do 4 (split; [done|]).
      unfold buckets in *. rewrite bucket_of_default in *.
      split; [intros k Hk; by rewrite Hset, decide_False|].
      right. do 2 (split; [done|]). left. do 2 (split; [done|]).
      by rewrite Hset, decide_True.
    + right. exists T, W. do 4 (split; [done|]).
      unfold buckets in *. rewrite bucket_of_default in *.
      split; [intros k Hk; by rewrite Hset, decide_False|].
      right. do 2 (split; [done|]). right. split; [done|].
      split; [by rewrite Hset, decide_True|]. by exists alert.
  - pose proof (_handle_dns_anomaly_store buckets rule event) as Hstore.
    pose proof (_handle_dns_anomaly_alerts buckets rule event) as Halerts.
    destruct (_handle_dns_anomaly buckets rule event) as [buckets' [alerts|e]];
      cbn [fst snd] in *; subst buckets'; (left; split; [done|]); [|by left].
    destruct (Halerts alerts eq_refl) as [->|Halert]; [by left|].
    right. by repeat split.
Qed.

End Rule_turn.

(** ** Runs, seen from one rule *)

Section Rule_run.
Context `{PyRuntime}.

(** The induction the statements about one rule share.  [I] is a property
    of the rule's buckets, [P] one of the alerts its handler yields; if the
    rule's turn keeps [I] and yields alerts with [P] on every event of the
    stream, then a run over the stream keeps [I], however it ends, and every
    alert it attributes to the rule has [P]. *)
Lemma rule_run_invariant (self : DetectionEngine) (stream : list Event)
    (rule : DetectionRule)
    (I : (string -> option (list Event)) -> Prop) (P : Alert -> Prop) :
  (forall other, other ∈ rules self -> rule_id other = rule_id rule -> other = rule) ->
  (forall view view', (forall k, view k = view' k) -> I view -> I view') ->
  (forall event st, event ∈ stream ->
     I (bucket_of st (rule_id rule)) ->
     I (bucket_of (process_rule event st rule).1.1 (rule_id rule))
     /\ Forall P (process_rule event st rule).1.2) ->
  I (bucket_of (state self) (rule_id rule)) ->
  I (bucket_of (state (process_attributed self stream).1.1) (rule_id rule))
  /\ forall alert, (rule, alert) ∈ (process_attributed self stream).1.2 -> P alert.
Proof.
  intros Hid Hext Hturn Hinit.
  assert (Hrun :
    I (bucket_of (for_each (fun st event =>
                              for_each (process_rule_attributed event) st (rules self))
                           (state self) stream).1.1 (rule_id rule))
    /\ Forall (fun item : DetectionRule * Alert => item.1 = rule -> P item.2)
              (for_each (fun st event =>
                           for_each (process_rule_attributed event) st (rules self))
                        (state self) stream).1.2).
  { apply (for_each_invariant _ (fun st => I (bucket_of st (rule_id rule)))); [|done].
    intros st event Hevent Hst.
    apply (for_each_invariant (process_rule_attributed event)
             (fun st => I (bucket_of st (rule_id rule)))
             (fun item : DetectionRule * Alert => item.1 = rule -> P item.2)
             (rules self)); [|done].
    clear st Hst. intros st other Hin Hst. unfold process_rule_attributed.
    destruct (decide (rule_id other = rule_id rule)) as [Heq|Hne].
    - rewrite (Hid other Hin Heq).
      destruct (Hturn event st Hevent Hst) as [Hst' Halerts].
      destruct (process_rule event st rule) as [[st1 out1] exn]; simpl in *.
      split; [done|]. apply Forall_fmap. eapply Forall_impl; [exact Halerts|].
      by intros alert Halert _.
    - assert (Hst' : I (bucket_of (process_rule event st other).1.1 (rule_id rule))).
      { eapply Hext; [|exact Hst]. intros k. symmetry. by apply process_rule_other. }
      destruct (process_rule event st other) as [[st1 out1] exn]; simpl in *.
      split; [done|]. apply Forall_fmap, Forall_true. intros alert Hother. simpl in *.
      by subst other. }
  destruct Hrun as [Hstore Halerts]. unfold process_attributed.
  destruct (for_each _ (state self) stream) as [[st alerts] exn]. simpl in *.
  split; [done|]. intros alert Hin. rewrite Forall_forall in Halerts.
  by apply (Halerts _ Hin).
Qed.

End Rule_run.

(** ** What a bucket holds *)

Section Bucket_contents.
Context `{PyRuntime}.

Lemma evicted_Forall (P : Event -> Prop) (bucket : list Event) (ts W : Z) :
  Forall P bucket -> Forall P (evicted bucket ts W).
Proof. apply suffix_Forall, popleft_while_older_suffix. Qed.

Lemma windowed_not_dns (rule : DetectionRule) :
  windowed rule -> rule_type rule <> "dns_anomaly".
Proof. intros [Ht|Ht]; rewrite Ht; discriminate. Qed.

Lemma process_state_attributed (self : DetectionEngine) (stream : list Event) :
  (process self stream).1.1 = (process_attributed self stream).1.1.
Proof. by rewrite process_attributed_erase. Qed.

(** The bucket with the event appended, when the old bucket and the event
    have a property. *)
Lemma appended_Forall (P : Event -> Prop) (st : Store) (id key : string) (event : Event) :
  (forall bucket, bucket_of st id key = Some bucket -> Forall P bucket) ->
  P event ->
  Forall P (default [] (bucket_of st id key) ++ [event]).
Proof.
  intros Hst Hevent. apply Forall_app. split.
  - destruct (bucket_of st id key) as [old|]; [by apply Hst | constructor].
  - by apply Forall_singleton.
Qed.

(** X2: the bucket of a grouping key is touched by the events its rule admits
    under that key and by no other: a run over a stream without such an
    event leaves the bucket as it was. *)
Theorem bucket_untouched_by_other_keys (self : DetectionEngine) (stream : list Event)
    (rule : DetectionRule) (key : string) :
  (forall other, other ∈ rules self -> rule_id other = rule_id rule -> other = rule) ->
  (forall event, event ∈ stream ->
     windowed rule -> admits rule event = true -> grouping_key rule event <> key) ->
  bucket_of (state (process self stream).1.1) (rule_id rule) key
  = bucket_of (state self) (rule_id rule) key.
Proof.
  intros Hid Hstream. rewrite process_state_attributed.
  apply (rule_run_invariant self stream rule
           (fun view => view key = bucket_of (state self) (rule_id rule) key)
           (fun _ => True) Hid); [| |done].
  - intros view view' Hview. by rewrite Hview.
  - intros event st Hevent Hst. split; [|by apply Forall_true].
    destruct (process_rule_turn event st rule)
      as [_ [[Hsame _]|(T & W & Hw & _ & _ & Hadm & Hother & _)]].
    + by rewrite Hsame.
    + rewrite Hother; [done|]. intros ->. by apply (Hstream event).
Qed.

(** X3: from a fresh engine on, a bucket of a windowed rule holds only events
    of the stream that the rule admits and whose grouping key is the
    bucket's; and the events of an alert attributed to the rule are such
    events, all of one grouping key. *)
Theorem buckets_hold_admitted_events (configured : list DetectionRule)
    (stream : list Event) (rule : DetectionRule) :
  let self := DetectionEngine_init configured in
  let run := process_attributed self stream in
  let kept key e :=
    e ∈ stream /\ admits rule e = true /\ grouping_key rule e = key in
  (forall other, other ∈ rules self -> rule_id other = rule_id rule -> other = rule) ->
  windowed rule ->
  (forall key bucket,
     bucket_of (state run.1.1) (rule_id rule) key = Some bucket ->
     Forall (kept key) bucket)
  /\ (forall alert, (rule, alert) ∈ run.1.2 ->
        exists key, Forall (kept key) (events alert)).
Proof.
  intros self run kept Hid Hw.
  apply (rule_run_invariant self stream rule
           (fun view => forall key bucket, view key = Some bucket -> Forall (kept key) bucket)
           (fun alert => exists key, Forall (kept key) (events alert)) Hid).
  - intros view view' Hview Hv key bucket. rewrite <- Hview. apply Hv.
  - intros event st Hevent Hst.
    destruct (process_rule_turn event st rule)
      as [_ [[Hsame Halerts]|(T & W & _ & _ & _ & Hadm & Hother & Hkey)]].
    + split.
      * intros key bucket. rewrite Hsame. apply Hst.
      * destruct Halerts as [->|[Hdns _]]; [constructor|].
        by destruct (windowed_not_dns rule Hw).
    + assert (Happended : Forall (kept (grouping_key rule event))
                (default [] (bucket_of st (rule_id rule) (grouping_key rule event))
                 ++ [event])).
      { apply appended_Forall; [apply Hst | done]. }
      pose proof (evicted_Forall _ _ (timestamp event) W Happended) as Hbucket.
      assert (Hrest : forall b,
                bucket_of (process_rule event st rule).1.1 (rule_id rule)
                          (grouping_key rule event) = Some b ->
                Forall (kept (grouping_key rule event)) b ->
                forall key bucket,
                  bucket_of (process_rule event st rule).1.1 (rule_id rule) key
                  = Some bucket ->
                  Forall (kept key) bucket).
      { intros b Hnew Hb key bucket.
        destruct (decide (key = grouping_key rule event)) as [->|Hne].
        - rewrite Hnew. by intros [= <-].
        - rewrite Hother by done. apply Hst. }
      destruct Hkey as [(_ & _ & -> & Hnew)
                       |(_ & _ & [(_ & -> & Hnew)|(_ & Hnew & alert & -> & Hev & _)])].
      * split; [by eapply Hrest | constructor].
      * split; [by eapply Hrest | constructor].
      * split; [eapply Hrest; [done | constructor]|].
        repeat constructor. exists (grouping_key rule event). by rewrite Hev.
  - intros key bucket. unfold bucket_of. simpl. by rewrite lookup_empty.
Qed.

(** X4: a port-scan rule never alerts on a stream in which [distinct_field]
    takes fewer values than the threshold, an absent field counting as one
    value. *)
Theorem port_scan_needs_distinct_values (configured : list DetectionRule)
    (stream : list Event) (rule : DetectionRule) (T : Z) :
  let self := DetectionEngine_init configured in
  (forall other, other ∈ rules self -> rule_id other = rule_id rule -> other = rule) ->
  rule_type rule = "port_scan" ->
  threshold_of rule = Ok T ->
  Z.of_nat (size (list_to_set (C := gset (option string))
                    (distinct_value rule <$> stream))) < T ->
  forall alert, (rule, alert) ∉ (process_attributed self stream).1.2.
Proof.
  intros self Hid Ht HT Hfew alert Hin.
  assert (Hw : windowed rule) by by right.
  destruct (rule_run_invariant self stream rule
              (fun view => forall key bucket, view key = Some bucket ->
                                              Forall (fun e => e ∈ stream) bucket)
              (fun _ => False) Hid) as [_ Hnone]; [| | |by apply (Hnone alert)].
  - intros view view' Hview Hv key bucket. rewrite <- Hview. apply Hv.
  - intros event st Hevent Hst.
    destruct (process_rule_turn event st rule)
      as [_ [[Hsame Halerts]|(T' & W & _ & HT' & _ & _ & Hother & Hkey)]].
    + split.
      * intros key bucket. rewrite Hsame. apply Hst.
      * destruct Halerts as [->|[Hdns _]]; [constructor|].
        by destruct (windowed_not_dns rule Hw).
    + rewrite HT in HT'. injection HT' as <-.
      assert (Happended : Forall (fun e => e ∈ stream)
                (default [] (bucket_of st (rule_id rule) (grouping_key rule event))
                 ++ [event])).
      { apply appended_Forall; [apply Hst | done]. }
      pose proof (evicted_Forall _ _ (timestamp event) W Happended) as Hbucket.
      assert (Hrest : forall b,
                bucket_of (process_rule event st rule).1.1 (rule_id rule)
                          (grouping_key rule event) = Some b ->
                Forall (fun e => e ∈ stream) b ->
                forall key bucket,
                  bucket_of (process_rule event st rule).1.1 (rule_id rule) key
                  = Some bucket ->
                  Forall (fun e => e ∈ stream) bucket).
      { intros b Hnew Hb key bucket.
        destruct (decide (key = grouping_key rule event)) as [->|Hne].
        - rewrite Hnew. by intros [= <-].
        - rewrite Hother by done. apply Hst. }
      destruct Hkey as [(_ & _ & -> & Hnew)|(_ & _ & [(_ & -> & Hnew)|(Hreach & _)])].
      * split; [by eapply Hrest | constructor].
      * split; [by eapply Hrest | constructor].
      * exfalso. unfold reaches in Hreach.
        rewrite bool_decide_eq_true_2 in Hreach by done.
        match type of Hreach with
        | (Z.of_nat (size ?X) >=? T) = true =>
            assert (Hsub : X ⊆ list_to_set (C := gset (option string))
                                 (distinct_value rule <$> stream))
        end.
        { intros v. rewrite !elem_of_list_to_set, !list_elem_of_fmap.
          intros (e & -> & He). exists e. split; [done|].
          rewrite Forall_forall in Hbucket. by apply Hbucket. }
        apply subseteq_size in Hsub. lia.
  - intros key bucket. unfold bucket_of. simpl. by rewrite lookup_empty.
Qed.

(** X5: under a negative window whose cutoffs can be computed, every
    admitted event is evicted at once: the buckets of the rule stay empty,
    an alert attributed to it carries no event, and there is one only when
    the threshold is not positive. *)
Theorem negative_window_keeps_nothing (configured : list DetectionRule)
    (stream : list Event) (rule : DetectionRule) (W : Z) :
  let self := DetectionEngine_init configured in
  let run := process_attributed self stream in
  (forall other, other ∈ rules self -> rule_id other = rule_id rule -> other = rule) ->
  windowed rule ->
  window_minutes_of rule = Ok W ->
  W < 0 ->
  Forall (window_in_range W) stream ->
  (forall key bucket,
     bucket_of (state run.1.1) (rule_id rule) key = Some bucket -> bucket = [])
  /\ (forall alert, (rule, alert) ∈ run.1.2 ->
        events alert = [] /\ exists T, threshold_of rule = Ok T /\ T <= 0).
Proof.
  intros self run Hid Hw HW Hneg Hrange. rewrite Forall_forall in Hrange.
  apply (rule_run_invariant self stream rule
           (fun view => forall key bucket, view key = Some bucket -> bucket = [])
           (fun alert => events alert = [] /\ exists T, threshold_of rule = Ok T /\ T <= 0)
           Hid).
  - intros view view' Hview Hv key bucket. rewrite <- Hview. apply Hv.
  - intros event st Hevent Hst.
    destruct (process_rule_turn event st rule)
      as [_ [[Hsame Halerts]|(T & W' & _ & HT & HW' & _ & Hother & Hkey)]].
    + split.
      * intros key bucket. rewrite Hsame. apply Hst.
      * destruct Halerts as [->|[Hdns _]]; [constructor|].
        by destruct (windowed_not_dns rule Hw).
    + rewrite HW in HW'. injection HW' as <-.
      assert (Hbucket : evicted (default [] (bucket_of st (rule_id rule)
                                               (grouping_key rule event)) ++ [event])
                                (timestamp event) W = []).
      { assert (Hone : evicted [event] (timestamp event) W = []).
        { unfold evicted, popleft_while_older.
          destruct (Z.ltb_spec (timestamp event) (timestamp event - minutes W));
            [done | unfold minutes in *; lia]. }
        destruct (bucket_of st (rule_id rule) (grouping_key rule event)) as [old|] eqn:Hold;
          [by rewrite (Hst _ _ Hold) | done]. }
      cbv zeta in Hkey. rewrite Hbucket in Hkey.
      destruct Hkey as [(Hout & _)
                       |(_ & _ & [(_ & -> & Hnew)|(Hreach & Hnew & alert & -> & Hev & _)])].
      * by destruct Hout, (Hrange event Hevent).
      * split; [|constructor]. intros key bucket.
        destruct (decide (key = grouping_key rule event)) as [->|Hne].
        -- rewrite Hnew. by intros [= <-].
        -- rewrite Hother by done. apply Hst.
      * split.
        -- intros key bucket.
           destruct (decide (key = grouping_key rule event)) as [->|Hne].
           ++ rewrite Hnew. by intros [= <-].
           ++ rewrite Hother by done. apply Hst.
        -- repeat constructor; [done|]. exists T. split; [done|].
           unfold reaches in Hreach. case_bool_decide.
           ++ rewrite fmap_nil, list_to_set_nil, size_empty in Hreach.
              apply Z.geb_le in Hreach. lia.
           ++ apply Z.geb_le in Hreach. simpl in Hreach. lia.
  - intros key bucket. unfold bucket_of. simpl. by rewrite lookup_empty.
Qed.

End Bucket_contents.

(** ** The alerts of a run *)

Section Run_alerts.
Context `{PyRuntime}.

Lemma process_rule_yields (event : Event) (st : Store) (rule : DetectionRule) :
  (process_rule event st rule).1.2 = []
  \/ exists alert, (process_rule event st rule).1.2 = [alert].
Proof.
  destruct (process_rule_turn event st rule)
    as [_ [[_ [Hnone|(_ & _ & alert & Hone & _)]]|(T & W & _ & _ & _ & _ & _ & Hkey)]].
  - by left.
  - right. by exists alert.
  - destruct Hkey as [(_ & _ & Hnone & _)
                     |(_ & _ & [(_ & Hnone & _)|(_ & _ & alert & Hone & _)])];
      [by left | by left | right; by exists alert].
Qed.

Lemma process_event_rule_order (event : Event) (retained : list DetectionRule) :
  forall st,
    fst <$> (for_each (process_rule_attributed event) st retained).1.2
    `sublist_of` retained.
Proof.
  induction retained as [|rule retained IH]; intros st; simpl; [constructor|].
  unfold process_rule_attributed at 1.
  pose proof (process_rule_yields event st rule) as Hyield.
  destruct (process_rule event st rule) as [[st1 out1] exn]; simpl in *.
  assert (Hout : fst <$> ((fun alert => (rule, alert)) <$> out1) = []
                 \/ fst <$> ((fun alert => (rule, alert)) <$> out1) = [rule]).
  { destruct Hyield as [->|[alert ->]]; [by left | by right]. }
  destruct exn as [e|]; simpl.
  - destruct Hout as [-> | ->]; [apply sublist_nil_l|].
    apply sublist_skip, sublist_nil_l.
  - specialize (IH st1).
    destruct (for_each (process_rule_attributed event) st1 retained) as [[st2 out2] exn];
      simpl in *.
    rewrite fmap_app. destruct Hout as [-> | ->]; simpl.
    + by apply sublist_cons.
    + by apply sublist_skip.
Qed.

(** X6: for one event the loop yields at most one alert per retained rule, in
    the order of the rules; so a run yields at most as many alerts as there
    are rules times events. *)
Theorem alerts_follow_rule_order (self : DetectionEngine) (stream : list Event) :
  (forall event,
     fst <$> (process_attributed self [event]).1.2 `sublist_of` rules self)
  /\ (length (process self stream).1.2 <= length (rules self) * length stream)%nat.
Proof.
  split.
  - intros event. unfold process_attributed. simpl.
    pose proof (process_event_rule_order event (rules self) (state self)) as Hsub.
    destruct (for_each (process_rule_attributed event) (state self) (rules self))
      as [[st1 out1] [e|]]; simpl in *; [done|]. by rewrite app_nil_r.
  - rewrite process_attributed_erase. cbn [fst snd]. rewrite length_fmap.
    unfold process_attributed.
    assert (Hlen : forall st,
      (length (for_each (fun st event =>
                           for_each (process_rule_attributed event) st (rules self))
                        st stream).1.2
       <= length (rules self) * length stream)%nat).
    { induction stream as [|event stream IH]; intros st; simpl; [lia|].
      pose proof (process_event_rule_order event (rules self) st) as Hsub.
      apply sublist_length in Hsub. rewrite length_fmap in Hsub.
      destruct (for_each (process_rule_attributed event) st (rules self))
        as [[st1 out1] [e|]]; simpl in *; [lia|].
      specialize (IH st1).
      destruct (for_each _ st1 stream) as [[st2 out2] exn]; simpl in *.
      rewrite length_app. lia. }
    specialize (Hlen (state self)).
    by destruct (for_each _ (state self) stream) as [[st alerts] exn].
Qed.

(** X7: every alert of a run from a fresh engine comes from a rule that was
    configured, is enabled and has a registered handler; it carries the
    severity of that rule as its priority and the rule's remediation, and
    its events are events of the stream. *)
Theorem alerts_come_from_enabled_rules (configured : list DetectionRule)
    (stream : list Event) (rule : DetectionRule) (alert : Alert) :
  (rule, alert) ∈ (process_attributed (DetectionEngine_init configured) stream).1.2 ->
  rule ∈ configured
  /\ enabled rule = true
  /\ is_Some (_HANDLERS !! rule_type rule)
  /\ priority alert = rule_severity rule
  /\ remediation alert = rule_remediation rule
  /\ Forall (fun e => e ∈ stream) (events alert).
Proof.
  set (self := DetectionEngine_init configured).
  set (good (item : DetectionRule * Alert) :=
         item.1 ∈ configured
         /\ enabled item.1 = true
         /\ is_Some (_HANDLERS !! rule_type item.1)
         /\ priority item.2 = rule_severity item.1
         /\ remediation item.2 = rule_remediation item.1
         /\ Forall (fun e => e ∈ stream) (events item.2)).
  set (inv (st : Store) :=
         forall id key bucket, bucket_of st id key = Some bucket ->
                               Forall (fun e => e ∈ stream) bucket).
  assert (Hrun :
    inv (for_each (fun st event =>
                     for_each (process_rule_attributed event) st (rules self))
                  (state self) stream).1.1
    /\ Forall good (for_each (fun st event =>
                                for_each (process_rule_attributed event) st (rules self))
                             (state self) stream).1.2).
  { apply (for_each_invariant _ inv good).
    - intros st event Hevent Hst.
      apply (for_each_invariant (process_rule_attributed event) inv good (rules self));
        [|done].
      clear st Hst. intros st r Hin Hst. unfold process_rule_attributed.
      apply list_elem_of_filter in Hin as [Hon Hin].
      destruct (process_rule_turn event st r) as [Hothers Hown].
      assert (Happended :
                Forall (fun e => e ∈ stream)
                  (default [] (bucket_of st (rule_id r) (grouping_key r event)) ++ [event])).
      { apply appended_Forall; [apply Hst | done]. }
      assert (Hadmit : forall W,
                Forall (fun e => e ∈ stream)
                  (evicted (default [] (bucket_of st (rule_id r) (grouping_key r event))
                            ++ [event]) (timestamp event) W)).
      { intros W. by apply evicted_Forall. }
      destruct (process_rule event st r) as [[st1 out1] exn]; simpl in *.
      destruct Hown as [[Hsame Halerts]|(T & W & Hw & _ & _ & _ & Hother & Hkey)].
      + split.
        * intros id key bucket. destruct (decide (id = rule_id r)) as [->|Hne].
          -- rewrite Hsame. apply Hst.
          -- rewrite Hothers by done. apply Hst.
        * destruct Halerts as [->|(Hdns & _ & a & -> & Hev & Hpri & Hrem)]; [constructor|].
          repeat constructor; simpl; try done.
          -- rewrite Hdns. by eexists.
          -- rewrite Hev. by repeat constructor.
      + assert (Hh : is_Some (_HANDLERS !! rule_type r)).
        { destruct Hw as [-> | ->]; by eexists. }
        destruct Hkey as [(_ & _ & -> & Hnew)
                         |(_ & _ & [(_ & -> & Hnew)
                                   |(_ & Hnew & a & -> & Hev & Hpri & Hrem & _)])].
        * split; [|constructor]. intros id key bucket.
          destruct (decide (id = rule_id r)) as [->|Hne];
            [|rewrite Hothers by done; apply Hst].
          destruct (decide (key = grouping_key r event)) as [->|Hne].
          -- rewrite Hnew. by intros [= <-].
          -- rewrite Hother by done. apply Hst.
        * split; [|constructor]. intros id key bucket.
          destruct (decide (id = rule_id r)) as [->|Hne];
            [|rewrite Hothers by done; apply Hst].
          destruct (decide (key = grouping_key r event)) as [->|Hne].
          -- rewrite Hnew. intros [= <-]. apply Hadmit.
          -- rewrite Hother by done. apply Hst.
        * split.
          -- intros id key bucket.
             destruct (decide (id = rule_id r)) as [->|Hne];
               [|rewrite Hothers by done; apply Hst].
             destruct (decide (key = grouping_key r event)) as [->|Hne].
             ++ rewrite Hnew. intros [= <-]. constructor.
             ++ rewrite Hother by done. apply Hst.
          -- repeat constructor; simpl; try done. rewrite Hev. apply Hadmit.
    - intros id key bucket. unfold bucket_of. simpl. by rewrite lookup_empty. }
  destruct Hrun as [_ Halerts]. unfold process_attributed.
  destruct (for_each _ (state self) stream) as [[st alerts] exn]. simpl in *.
  intros Hin. rewrite Forall_forall in Halerts. apply (Halerts _ Hin).
Qed.

(** X8: a stream may be fed in pieces: running over the first part and then,
    unless that raised, over the second from the engine it left, gives the
    alerts, the store and the ending of the run over the whole. *)
Theorem process_in_pieces (self : DetectionEngine) (first second : list Event) :
  process self (first ++ second)
  = match process self first with
    | (self', alerts, Some e) => (self', alerts, Some e)
    | (self', alerts, None) =>
        let '(self'', alerts', exn) := process self' second in
        (self'', alerts ++ alerts', exn)
    end.
Proof.
  unfold process. rewrite for_each_app.
  destruct (for_each (process_event (rules self)) (state self) first)
    as [[st1 out1] [e|]]; [reflexivity|].
  cbn [rules state].
  by destruct (for_each (process_event (rules self)) st1 second) as [[st2 out2] exn].
Qed.

End Run_alerts.

(** ** A windowed rule alone in the engine *)

Section Windowed_alone.
Context `{PyRuntime}.

(** The turn of a windowed rule whose threshold and window are coerced,
    on an event whose cutoff can be computed: it does not raise. *)
Lemma process_rule_windowed (event : Event) (st : Store) (rule : DetectionRule) (T W : Z) :
  windowed rule ->
  threshold_of rule = Ok T ->
  window_minutes_of rule = Ok W ->
  window_in_range W event ->
  let turn := process_rule event st rule in
  let id := rule_id rule in
  let key := grouping_key rule event in
  let bucket :=
    evicted (default [] (bucket_of st id key) ++ [event]) (timestamp event) W in
  turn.2 = None
  /\ (forall k, k <> key -> bucket_of turn.1.1 id k = bucket_of st id k)
  /\ ((admits rule event = false
       /\ turn.1.2 = []
       /\ bucket_of turn.1.1 id key = bucket_of st id key)
      \/ (admits rule event = true
          /\ reaches rule T bucket = false
          /\ turn.1.2 = []
          /\ bucket_of turn.1.1 id key = Some bucket)
      \/ (admits rule event = true
          /\ reaches rule T bucket = true
          /\ bucket_of turn.1.1 id key = Some []
          /\ exists alert,
               turn.1.2 = [alert]
               /\ events alert = bucket
               /\ alert_id alert
                  = id +:+ ":" +:+ key +:+ ":"
                    +:+ int_repr (epoch_seconds (timestamp event)))).
Proof.
  intros Hw HT HW Hrange. cbv zeta. unfold process_rule.
  assert (Hh : exists handler, _HANDLERS !! rule_type rule = Some handler).
  { destruct Hw as [-> | ->]; by eexists. }
  destruct Hh as [handler Hh]. rewrite Hh.
  set (buckets := default ∅ (st !! rule_id rule)).
  assert (Hsame : forall k, bucket_of (<[rule_id rule := buckets]> st) (rule_id rule) k
                            = bucket_of st (rule_id rule) k).
  { intros k. rewrite bucket_of_insert, decide_True by done. apply bucket_of_default. }
  destruct (windowed_handler_run rule handler buckets event T W Hw Hh HT HW)
    as [[Hadm ->]|[(_ & Hout & _)|[(Hadm & _ & Hreach & ->)
        |(Hadm & _ & Hreach & alert & Hev & _ & _ & Hid & ->)]]];
    [|done| |];
    cbn [fst snd]; (split; [done|]); unfold buckets in *;
    try rewrite bucket_of_default in *.
  - split; [done|]. left. by repeat split.
  - split.
    { intros k Hk. rewrite bucket_of_insert, decide_True by done.
      rewrite lookup_insert_ne by done. apply bucket_of_default. }
    right; left. repeat (split; [done|]).
    rewrite bucket_of_insert, decide_True by done. by rewrite lookup_insert_eq.
  - split.
    { intros k Hk. rewrite bucket_of_insert, decide_True by done.
      rewrite lookup_insert_ne by done. apply bucket_of_default. }
    right; right. repeat (split; [done|]). split.
    { rewrite bucket_of_insert, decide_True by done. by rewrite lookup_insert_eq. }
    by exists alert.
Qed.

Lemma process_event_single (rule : DetectionRule) (event : Event) (st : Store) :
  process_event [rule] st event = process_rule event st rule.
Proof.
  unfold process_event. simpl.
  destruct (process_rule event st rule) as [[st1 out1] [e|]]; [done|].
  by rewrite app_nil_r.
Qed.

Lemma evicted_keep (bucket : list Event) (ts W : Z) :
  Forall (fun e => ts - minutes W <= timestamp e) bucket ->
  evicted bucket ts W = bucket.
Proof. apply popleft_while_older_keep. Qed.

Section One_rule.
Variable rule : DetectionRule.
Variables T W : Z.
Hypothesis Hw : windowed rule.
Hypothesis HT : threshold_of rule = Ok T.
Hypothesis HW : window_minutes_of rule = Ok W.

(** With a threshold of at most 1 and a window that is not negative, on
    events whose cutoffs can be computed, the buckets stay empty and every
    admitted event is yielded at once, alone in its alert. *)
Lemma process_events_threshold_one (stream : list Event) :
  T <= 1 -> 0 <= W ->
  Forall (window_in_range W) stream ->
  forall st,
    (forall key bucket, bucket_of st (rule_id rule) key = Some bucket -> bucket = []) ->
    exists st' alerts,
      for_each (process_event [rule]) st stream = (st', alerts, None)
      /\ events <$> alerts
         = (fun e => [e]) <$> filter (fun e => admits rule e = true) stream
      /\ alert_id <$> alerts
         = (fun e => rule_id rule +:+ ":" +:+ grouping_key rule e +:+ ":"
                     +:+ int_repr (epoch_seconds (timestamp e)))
           <$> filter (fun e => admits rule e = true) stream
      /\ (forall key bucket,
            bucket_of st' (rule_id rule) key = Some bucket -> bucket = []).
Proof.
  intros Hone Hpos Hrange.
  induction stream as [|event stream IH]; intros st Hst.
  - exists st, []. by repeat split.
  - apply Forall_cons in Hrange as [Hin Hrange]. specialize (IH Hrange).
    simpl. rewrite process_event_single.
    destruct (process_rule_windowed event st rule T W Hw HT HW Hin)
      as (Hexn & Hother & Hkey).
    assert (Hbucket : evicted (default [] (bucket_of st (rule_id rule)
                                             (grouping_key rule event)) ++ [event])
                              (timestamp event) W = [event]).
    { assert (Hold : default [] (bucket_of st (rule_id rule) (grouping_key rule event)) = []).
      { destruct (bucket_of st (rule_id rule) (grouping_key rule event)) as [old|] eqn:Hold;
          [by rewrite (Hst _ _ Hold) | done]. }
      rewrite Hold. simpl. apply evicted_keep. repeat constructor.
      unfold minutes. lia. }
    rewrite Hbucket in Hkey.
    assert (Hfires : reaches rule T [event] = true).
    { unfold reaches. case_bool_decide.
      - rewrite fmap_cons, fmap_nil, list_to_set_singleton_L, size_singleton.
        apply Z.geb_le. lia.
      - simpl. apply Z.geb_le. lia. }
    rewrite Hfires in Hkey.
    destruct (process_rule event st rule) as [[st1 out1] exn]; simpl in *. subst exn.
    assert (Hst1 : forall key bucket,
                     bucket_of st1 (rule_id rule) key = Some bucket -> bucket = []).
    { intros key bucket.
      destruct (decide (key = grouping_key rule event)) as [->|Hne];
        [|rewrite Hother by done; apply Hst].
      destruct Hkey as [(_ & _ & ->)|[(_ & ? & _)|(_ & _ & -> & _)]];
        [apply Hst | done | by intros [= <-]]. }
    destruct (IH st1 Hst1) as (st2 & alerts2 & Hrun2 & Hev2 & Hid2 & Hst2).
    rewrite Hrun2. exists st2, (out1 ++ alerts2). split; [done|].
    rewrite !fmap_app, Hev2, Hid2, filter_cons. split; [|split; [|done]].
    + destruct Hkey as [(Hadm & -> & _)|[(_ & ? & _)|(Hadm & _ & _ & a & -> & Ha & _)]];
        [|done|].
      * by rewrite decide_False by congruence.
      * rewrite decide_True by done. simpl. by rewrite Ha.
    + destruct Hkey as [(Hadm & -> & _)|[(_ & ? & _)|(Hadm & _ & _ & a & -> & _ & Ha)]];
        [|done|].
      * by rewrite decide_False by congruence.
      * rewrite decide_True by done. simpl. by rewrite Ha.
Qed.

End One_rule.

End Windowed_alone.

Section Windowed_alone_theorems.
Context `{PyRuntime}.


(** X10: the id of an alert of a windowed rule is made of the rule id, the
    grouping key and [int(event.timestamp.timestamp())] of the triggering
    event, so it repeats: under a threshold of at most 1, two admitted
    events of one grouping key for which that integer is the same, and
    whose cutoffs can be computed, yield two alerts, one for each event,
    with the same id. *)
Theorem alert_id_repeats_within_a_second (rule : DetectionRule) (st : Store)
    (e1 e2 : Event) (T W : Z) :
  windowed rule ->
  threshold_of rule = Ok T ->
  window_minutes_of rule = Ok W ->
  T <= 1 -> 0 <= W ->
  window_in_range W e1 -> window_in_range W e2 ->
  (forall key bucket, bucket_of st (rule_id rule) key = Some bucket -> bucket = []) ->
  admits rule e1 = true -> admits rule e2 = true ->
  grouping_key rule e1 = grouping_key rule e2 ->
  epoch_seconds (timestamp e1) = epoch_seconds (timestamp e2) ->
  exists a1 a2,
    (process {| rules := [rule]; state := st |} [e1; e2]).1.2 = [a1; a2]
    /\ events a1 = [e1] /\ events a2 = [e2]
    /\ alert_id a1 = alert_id a2.
Proof.
  intros Hw HT HW Hone Hpos Hin1 Hin2 Hst Hadm1 Hadm2 Hkey Hsec.
  assert (Hrange : Forall (window_in_range W) [e1; e2]).
  { apply Forall_cons. split; [done|]. by apply Forall_singleton. }
  destruct (process_events_threshold_one rule T W Hw HT HW [e1; e2] Hone Hpos Hrange st Hst)
    as (st' & alerts & Hrun & Hev & Hids & _).
  unfold process. cbn [rules state]. rewrite Hrun. cbn [fst snd].
  rewrite !filter_cons, filter_nil, !decide_True in Hev, Hids by done.
  destruct alerts as [|a1 [|a2 [|a3 alerts]]]; try discriminate.
  injection Hev as Hev1 Hev2. injection Hids as Hid1 Hid2.
  exists a1, a2. repeat (split; [done|]). by rewrite Hid1, Hid2, Hkey, Hsec.
Qed.

Section One_rule.
Variable rule : DetectionRule.
Variables T W : Z.
Variable key : string.
Hypothesis Hw : windowed rule.
Hypothesis HT : threshold_of rule = Ok T.
Hypothesis HW : window_minutes_of rule = Ok W.



End One_rule.


End Windowed_alone_theorems.

(** ** The entries of the store *)

Section Store_entries.
Context `{PyRuntime}.

Lemma process_rule_entries (event : Event) (st : Store) (rule : DetectionRule) (id : string) :
  is_Some ((process_rule event st rule).1.1 !! id)
  <-> is_Some (st !! id)
      \/ (id = rule_id rule /\ is_Some (_HANDLERS !! rule_type rule)).
Proof.
  unfold process_rule.
  destruct (_HANDLERS !! rule_type rule) as [handler|] eqn:Hh.
  - assert (Hins : forall buckets : Buckets,
              is_Some (<[rule_id rule := buckets]> st !! id)
              <-> is_Some (st !! id) \/ (id = rule_id rule /\ is_Some (Some handler))).
    { intros buckets. rewrite lookup_insert. case_decide.
      - split; [intros _; right; split; [done | by eexists] | by eexists].
      - split; [by left | intros [?|[? _]]; [done | congruence]]. }
    destruct (handler _ rule event) as [buckets' [alerts|e]]; cbn [fst]; apply Hins.
  - cbn [fst]. split; [by left | intros [?|[_ [? ?]]]; [done | discriminate]].
Qed.

Lemma process_event_entries (event : Event) (retained : list DetectionRule) :
  forall st,
    (forall id, is_Some (st !! id) ->
                is_Some ((process_event retained st event).1.1 !! id))
    /\ (forall id, is_Some ((process_event retained st event).1.1 !! id) ->
          is_Some (st !! id)
          \/ exists rule, rule ∈ retained /\ rule_id rule = id
                          /\ is_Some (_HANDLERS !! rule_type rule))
    /\ ((process_event retained st event).2 = None ->
        forall rule, rule ∈ retained -> is_Some (_HANDLERS !! rule_type rule) ->
                     is_Some ((process_event retained st event).1.1 !! rule_id rule)).
Proof.
  unfold process_event.
  induction retained as [|rule retained IH]; intros st; simpl.
  - split; [done|]. split; [by left|]. by intros _ rule []%elem_of_nil.
  - pose proof (process_rule_entries event st rule) as Hrule.
    destruct (process_rule event st rule) as [[st1 out1] [e|]]; simpl in *.
    + split; [intros id Hid; apply Hrule; by left|]. split; [|done].
      intros id [Hid|[-> Hh]]%Hrule; [by left|].
      right. exists rule. split; [left | done].
    + destruct (IH st1) as (Hmono & Hdom & Hall).
      destruct (for_each (process_rule event) st1 retained) as [[st2 out2] exn];
        simpl in *.
      split; [intros id Hid; apply Hmono, Hrule; by left|]. split.
      * intros id [[Hid|[-> Hh]]%Hrule|(r & Hr & <- & Hh)]%Hdom.
        -- by left.
        -- right. exists rule. split; [left | done].
        -- right. exists r. split; [by right | done].
      * intros -> r [->|Hr]%elem_of_cons Hh.
        -- apply Hmono, Hrule. by right.
        -- by apply Hall.
Qed.

(** X12: after a run from a fresh engine the store holds entries for retained
    rules with a registered handler and for nothing else; and once a run
    over at least one event has ended without an exception, it holds an
    entry for each of them. *)
Theorem store_holds_the_handled_rules (configured : list DetectionRule)
    (stream : list Event) :
  let self := DetectionEngine_init configured in
  let run := process self stream in
  (forall id, is_Some (state run.1.1 !! id) ->
     exists rule,
       rule ∈ configured /\ enabled rule = true /\ rule_id rule = id
       /\ is_Some (_HANDLERS !! rule_type rule))
  /\ (stream <> [] -> run.2 = None ->
      forall rule,
        rule ∈ configured -> enabled rule = true ->
        is_Some (_HANDLERS !! rule_type rule) ->
        is_Some (state run.1.1 !! rule_id rule)).
Proof.
  intros self run. subst run. unfold process.
  assert (Hret : rules self = filter (fun rule => enabled rule = true) configured)
    by reflexivity.
  change (state self) with (∅ : Store).
  generalize dependent (rules self). intros retained Hret.
  assert (Hloop : forall st,
    let loop := for_each (process_event retained) st stream in
    (forall id, is_Some (st !! id) -> is_Some (loop.1.1 !! id))
    /\ (forall id, is_Some (loop.1.1 !! id) ->
          is_Some (st !! id)
          \/ exists rule, rule ∈ retained /\ rule_id rule = id
                          /\ is_Some (_HANDLERS !! rule_type rule))
    /\ (stream <> [] -> loop.2 = None ->
        forall rule, rule ∈ retained -> is_Some (_HANDLERS !! rule_type rule) ->
                     is_Some (loop.1.1 !! rule_id rule))).
  { induction stream as [|event stream IH]; intros st; simpl.
    - split; [done|]. split; [by left | done].
    - destruct (process_event_entries event retained st) as (Hmono & Hdom & Hall).
      destruct (process_event retained st event) as [[st1 out1] [e|]]; simpl in *.
      + split; [done|]. by split.
      + destruct (IH st1) as (Hmono' & Hdom' & _).
        destruct (for_each (process_event retained) st1 stream) as [[st2 out2] exn];
          simpl in *.
        split; [intros id Hid; by apply Hmono', Hmono|]. split.
        * intros id [Hid|Hid]%Hdom'; [by apply Hdom | by right].
        * intros _ _ rule Hin Hh. apply Hmono'. by apply Hall. }
  destruct (Hloop ∅) as (_ & Hdom & Hall).
  destruct (for_each (process_event retained) ∅ stream)
    as [[st alerts] exn]; simpl in *.
  split.
  - intros id [Hid|(rule & Hin & Hrid & Hh)]%Hdom.
    + rewrite lookup_empty in Hid. by destruct Hid.
    + rewrite Hret in Hin. apply list_elem_of_filter in Hin as [Hon Hin]. by exists rule.
  - intros Hne Hexn rule Hin Hon Hh. apply Hall; [done..| |done].
    rewrite Hret. apply list_elem_of_filter. by split.
Qed.

End Store_entries.

(** ** Where exceptions come from *)

Section Exceptions.
Context `{PyRuntime}.






End Exceptions.

(** ** The anomaly-scoring rule alone in the engine *)

Section Dns_alone.
Context `{PyRuntime}.




End Dns_alone.

(** ** Rules of different ids *)

(** The alerts of an attributed run that rules of the given id yielded. *)
Definition alerts_of (id : string) (run : list (DetectionRule * Alert)) : list Alert :=
  snd <$> filter (fun item => rule_id item.1 = id) run.

Section Independence.
Context `{PyRuntime}.

Lemma alerts_of_app (id : string) (l k : list (DetectionRule * Alert)) :
  alerts_of id (l ++ k) = alerts_of id l ++ alerts_of id k.
Proof. unfold alerts_of. by rewrite filter_app, fmap_app. Qed.

(** The turns of rules of other ids leave the entry of [id] alone and
    yield no alert of [id]. *)
Lemma process_others (id : string) (event : Event) (others : list DetectionRule)
    (st : Store) :
  (forall other, other ∈ others -> rule_id other <> id) ->
  (for_each (process_rule_attributed event) st others).1.1 !! id = st !! id
  /\ alerts_of id (for_each (process_rule_attributed event) st others).1.2 = [].
Proof.
  intros Hothers.
  destruct (for_each_invariant (process_rule_attributed event)
              (fun st' => st' !! id = st !! id)
              (fun item => rule_id item.1 <> id) others) with (st := st)
    as [Hstore Halerts]; [|done|].
  - intros st' other Hin Hst'. unfold process_rule_attributed, process_rule.
    specialize (Hothers other Hin).
    destruct (_HANDLERS !! rule_type other) as [handler|]; [|by split].
    destruct (handler _ other event) as [buckets' [alerts|e]]; cbn [fst snd].
    + split; [by rewrite lookup_insert_ne|]. apply Forall_fmap. by apply Forall_true.
    + split; [by rewrite lookup_insert_ne | done].
  - split; [done|]. unfold alerts_of.
    induction Halerts as [|item items Hitem _ IH]; [done|].
    rewrite filter_cons, decide_False by done. apply IH.
Qed.

(** The turn of a rule reads and writes the entry of its id, nothing else
    of the store. *)
Lemma process_rule_local (event : Event) (st st' : Store) (rule : DetectionRule) :
  st !! rule_id rule = st' !! rule_id rule ->
  (process_rule event st rule).1.1 !! rule_id rule
  = (process_rule event st' rule).1.1 !! rule_id rule
  /\ (process_rule event st rule).1.2 = (process_rule event st' rule).1.2
  /\ (process_rule event st rule).2 = (process_rule event st' rule).2.
Proof.
  intros Hsame. unfold process_rule. rewrite Hsame.
  destruct (_HANDLERS !! rule_type rule) as [handler|]; [|done].
  destruct (handler _ rule event) as [buckets' [alerts|e]]; cbn [fst snd];
    by rewrite !lookup_insert_eq.
Qed.

Lemma alerts_of_own (rule : DetectionRule) (alerts : list Alert) :
  alerts_of (rule_id rule) ((fun alert => (rule, alert)) <$> alerts) = alerts.
Proof.
  unfold alerts_of. induction alerts as [|alert alerts IH]; [done|].
  rewrite fmap_cons, filter_cons, decide_True by done. rewrite fmap_cons. by f_equal.
Qed.

Section One_rule.
Variable rule : DetectionRule.
Variables before after : list DetectionRule.
Hypothesis Hothers :
  forall other, other ∈ before ++ after -> rule_id other <> rule_id rule.

Lemma process_event_independent (event : Event) (st st' : Store) :
  st !! rule_id rule = st' !! rule_id rule ->
  let among := for_each (process_rule_attributed event) st (before ++ rule :: after) in
  let alone := process_rule event st' rule in
  among.2 = None ->
  alone.2 = None
  /\ alerts_of (rule_id rule) among.1.2 = alone.1.2
  /\ among.1.1 !! rule_id rule = alone.1.1 !! rule_id rule.
Proof.
  intros Hsame among alone. subst among alone.
  rewrite for_each_app.
  destruct (process_others (rule_id rule) event before st) as [Hst1 Hout1].
  { intros other Hin. apply Hothers, elem_of_app. by left. }
  destruct (for_each (process_rule_attributed event) st before) as [[st1 out1] [e|]];
    [discriminate|].
  cbn [fst snd] in Hst1, Hout1. cbn [for_each].
  destruct (process_rule_local event st1 st' rule) as (Hstore & Halerts & Hexn).
  { by rewrite Hst1. }
  remember (process_rule_attributed event st1 rule) as turn eqn:Hturn.
  unfold process_rule_attributed in Hturn.
  destruct (process_rule event st1 rule) as [[st2 out2] exn2]. subst turn.
  cbn [fst snd] in Hstore, Halerts, Hexn.
  destruct exn2 as [e|]; [cbn [fst snd]; discriminate|].
  destruct (process_others (rule_id rule) event after st2) as [Hst3 Hout3].
  { intros other Hin. apply Hothers, elem_of_app. by right. }
  destruct (for_each (process_rule_attributed event) st2 after) as [[st3 out3] exn].
  cbn [fst snd] in *. intros _. split; [done|]. split.
  - by rewrite !alerts_of_app, Hout1, Hout3, alerts_of_own, app_nil_r, Halerts.
  - by rewrite Hst3, Hstore.
Qed.

Lemma process_events_independent (stream : list Event) (st st' : Store) :
  st !! rule_id rule = st' !! rule_id rule ->
  let among :=
    for_each (fun st event =>
                for_each (process_rule_attributed event) st (before ++ rule :: after))
             st stream in
  let alone := for_each (process_event [rule]) st' stream in
  among.2 = None ->
  alone.2 = None
  /\ alerts_of (rule_id rule) among.1.2 = alone.1.2
  /\ among.1.1 !! rule_id rule = alone.1.1 !! rule_id rule.
Proof.
  revert st st'. induction stream as [|event stream IH]; intros st st' Hsame; [done|].
  cbn [for_each]. rewrite process_event_single.
  pose proof (process_event_independent event st st' Hsame) as Hevent.
  cbv zeta in Hevent.
  destruct (for_each (process_rule_attributed event) st (before ++ rule :: after))
    as [[st1 out1] [e|]]; [discriminate|].
  destruct Hevent as (Hexn & Halerts & Hstore); [done|].
  destruct (process_rule event st' rule) as [[st1' out1'] exn1]. cbn [fst snd] in *.
  subst exn1. specialize (IH st1 st1' Hstore). cbv zeta in IH.
  destruct (for_each _ st1 stream) as [[st2 out2] exn2].
  destruct (for_each (process_event [rule]) st1' stream) as [[st2' out2'] exn2'].
  cbn [fst snd] in *. intros ->. destruct IH as (-> & Hout & Hst); [done|].
  split; [done|]. split; [|done]. by rewrite alerts_of_app, Halerts, Hout.
Qed.

End One_rule.

(** X15: rules of different ids do not interfere.  In a run that does not
    raise, a rule whose id no other rule of the engine has yields the
    alerts it yields alone in an engine with the same store, in the same
    order, and leaves its entry of the store as it does alone. *)
Theorem rules_of_different_ids_are_independent (self : DetectionEngine)
    (before after : list DetectionRule) (rule : DetectionRule) (stream : list Event) :
  rules self = before ++ rule :: after ->
  (forall other, other ∈ before ++ after -> rule_id other <> rule_id rule) ->
  (process self stream).2 = None ->
  let among := process_attributed self stream in
  let alone := process {| rules := [rule]; state := state self |} stream in
  alone.2 = None
  /\ alerts_of (rule_id rule) among.1.2 = alone.1.2
  /\ state among.1.1 !! rule_id rule = state alone.1.1 !! rule_id rule.
Proof.
  intros Hrules Hothers Hquiet among alone. subst among alone.
  rewrite process_attributed_erase in Hquiet. cbn [snd] in Hquiet.
  unfold process_attributed in *. unfold process. cbn [rules state]. rewrite Hrules in *.
  pose proof (process_events_independent rule before after Hothers stream
                (state self) (state self) eq_refl) as Hrun.
  cbv zeta in Hrun.
  destruct (for_each _ (state self) stream) as [[st out] exn].
  destruct (for_each (process_event [rule]) (state self) stream) as [[st' out'] exn'].
  cbn [fst snd state] in *. by apply Hrun.
Qed.

End Independence.

(** * The alert dispatcher of [siem/alerting.py]

    The dispatcher prints to standard output and writes files.  None of
    its calls returns a value the dispatcher reads, so a method is the
    sequence of calls it makes; any of them can raise, and the exception is
    caught nowhere, so a call that raises ends the method there.  A run of
    a method is the calls it completed, in order, and the call that raised,
    if one did. *)

(** An [Alert] as it reaches the dispatcher: the record above, the field
    [created_at] that record leaves out, and what a [dict] keeps and a
    finite map does not, the order in which the keys of [details] were
    inserted: [key_orders] holds one list of keys for each event of the
    alert, in the order of the events. *)
Record EmittedAlert : Type := {
  alert : Alert;
  created_at : Z;
  key_orders : list (list string)
}.

(** The items of a [dict] in the order it iterates: the keys of [order]
    the mapping holds, each at its first place, then the keys [order] does
    not name, so that every item comes once whatever [order] is. *)
Definition ordered_items (d : gmap string string) (order : list string)
    : list (string * string) :=
  omap (fun k => (fun v => (k, v)) <$> d !! k) (remove_dups order)
  ++ filter (fun kv => kv.1 ∉ order) (map_to_list d).

(** The value [json.dumps] is given. *)
#[warnings="-register-all"]
Inductive Json : Type :=
| JNull
| JString (s : string)
| JArray (items : list Json)
| JObject (fields : list (string * Json)).

(** What the dispatcher takes from the Python library: the text of a
    [datetime], of a [dict] of strings in an f-string, given by its items
    in order, and of a JSON document with [indent=2]. *)
Class PyText : Type := {
  isoformat : Z -> string;
  dict_str : list (string * string) -> string;
  json_dumps : Json -> string
}.

(** The calls that reach outside the program: [Path.mkdir] with
    [parents=True, exist_ok=True], [print] and [Path.write_text] on the
    path [dir / filename]. *)
Inductive Effect : Type :=
| Mkdir (dir : string)
| Stdout (line : string)
| WriteText (dir filename text : string).

(** What the calls act on, the console and the file system: [attempt]
    gives the state a call leaves, or nothing when the call raises. *)
Class Environment : Type := {
  World : Type;
  attempt : World -> Effect -> option World
}.

(** A run: the state it leaves, the calls it completed, and the call that
    raised. *)
Record Outcome `{Environment} : Type := {
  world : World;
  performed : list Effect;
  raised : option Effect
}.

(** The calls of a sequence are made in order up to the first that
    raises. *)
Fixpoint perform `{Environment} (w : World) (calls : list Effect) : Outcome :=
  match calls with
  | [] => {| world := w; performed := []; raised := None |}
  | call :: rest =>
      match attempt w call with
      | None => {| world := w; performed := []; raised := Some call |}
      | Some w' =>
          let out := perform w' rest in
          {| world := world out; performed := call :: performed out;
             raised := raised out |}
      end
  end.

(** [s.replace(old, new)] for one-character [old] and [new]. *)
Definition replace_char (old new : ascii) (s : string) : string :=
  string_of_list_ascii
    ((fun c => if bool_decide (c = old) then new else c) <$> list_ascii_of_string s).

Section Dispatcher.
Context `{PyText} `{Environment}.

(** The items of the [details] of the event at place [i] of an alert. *)
Definition details_items (a : EmittedAlert) (i : nat) (event : Event)
    : list (string * string) :=
  ordered_items (details event) (default [] (key_orders a !! i)).

(** [AlertDispatcher.__init__]: a [Path] is true whatever it holds. *)
Definition AlertDispatcher_init (w : World) (output_dir : option string) : Outcome :=
  perform w match output_dir with
            | Some dir => [Mkdir dir]
            | None => []
            end.

Definition _print (a : EmittedAlert) : list Effect :=
  let rule := string_of_list_ascii (replicate 80 "="%char) in
  let n := length (events (alert a)) in
  Stdout <$>
    ([ rule;
       "ALERT: " +:+ title (alert a);
       "Priority: " +:+ priority (alert a) +:+ " | Created: "
         +:+ isoformat (created_at a) +:+ " | ID: " +:+ alert_id (alert a);
       "Description: " +:+ description (alert a) ]
     ++ match remediation (alert a) with
        | Some text => if bool_decide (text = "") then [] else ["Remediation: " +:+ text]
        | None => []
        end
     ++ [ "Associated events: " +:+ int_repr (Z.of_nat n) ]
     ++ imap (fun i event =>
                "  - " +:+ isoformat (timestamp event) +:+ " " +:+ category event
                +:+ " " +:+ dict_str (details_items a i event))
             (take 5 (events (alert a)))
     ++ (if (5 <? n)%nat
         then [ "  ... " +:+ int_repr (Z.of_nat n - 5) +:+ " more events omitted" ]
         else [])
     ++ [ rule ]).

Definition filename (a : EmittedAlert) : string :=
  replace_char ":" "_" (alert_id (alert a)) +:+ ".json".

Definition payload (a : EmittedAlert) : Json :=
  JObject
    [ ("id", JString (alert_id (alert a)));
      ("created_at", JString (isoformat (created_at a)));
      ("title", JString (title (alert a)));
      ("description", JString (description (alert a)));
      ("priority", JString (priority (alert a)));
      ("remediation",
       match remediation (alert a) with Some text => JString text | None => JNull end);
      ("events",
       JArray
         (imap (fun i event =>
                  JObject
                    [ ("timestamp", JString (isoformat (timestamp event)));
                      ("source", JString (source event));
                      ("category", JString (category event));
                      ("severity", JString (severity event));
                      ("details",
                       JObject ((fun kv => (kv.1, JString kv.2))
                                <$> details_items a i event)) ])
               (events (alert a)))) ].

Definition _write (output_dir : string) (a : EmittedAlert) : list Effect :=
  [ WriteText output_dir (filename a) (json_dumps (payload a)) ].

(** The body of the loop of [dispatch], for one alert. *)
Definition dispatch_one (output_dir : option string) (a : EmittedAlert) : list Effect :=
  _print a ++ match output_dir with
              | Some dir => _write dir a
              | None => []
              end.

Definition dispatch (w : World) (output_dir : option string)
    (alerts : list EmittedAlert) : Outcome :=
  perform w (a ← alerts; dispatch_one output_dir a).

(** The files of a directory once a sequence of calls has been completed:
    file name to text, a later write replacing an earlier one to the same
    name.  This reads a name as the name of a file of the directory, which
    it is when it holds no path separator, on a file system that tells
    names apart by their characters. *)
Fixpoint files_in (dir : string) (effects : list Effect) (files : gmap string string)
    : gmap string string :=
  match effects with
  | [] => files
  | WriteText dir' name text :: rest =>
      files_in dir rest (if bool_decide (dir' = dir) then <[name := text]> files else files)
  | _ :: rest => files_in dir rest files
  end.

End Dispatcher.

(** What a sequence of calls leaves on standard output, and the writes it
    holds. *)
Definition printed (effects : list Effect) : list string :=
  e ← effects; match e with Stdout line => [line] | _ => [] end.

Definition writes (effects : list Effect) : list (string * string * string) :=
  e ← effects; match e with WriteText dir name text => [(dir, name, text)] | _ => [] end.

Section Dict_order.

Lemma elem_of_ordered_items (d : gmap string string) (order : list string)
    (k v : string) :
  (k, v) ∈ ordered_items d order <-> d !! k = Some v.
Proof.
  unfold ordered_items. rewrite elem_of_app, list_elem_of_omap, list_elem_of_filter.
  rewrite elem_of_map_to_list. split.
  - intros [(k' & _ & Hk)|[_ Hk]]; [|done].
    destruct (d !! k') as [v'|] eqn:Hd; [|discriminate].
    simpl in Hk. by injection Hk as -> ->.
  - intros Hd. destruct (decide (k ∈ order)) as [Hin|Hout].
    + left. exists k. split; [by apply elem_of_remove_dups|]. by rewrite Hd.
    + right. by split.
Qed.

(** Whatever [order] is, the items are those of the mapping, each once. *)
Lemma ordered_items_Permutation (d : gmap string string) (order : list string) :
  ordered_items d order ≡ₚ map_to_list d.
Proof.
  apply NoDup_Permutation.
  - unfold ordered_items. apply NoDup_app. split; [|split].
    + pose proof (NoDup_remove_dups order) as Hnodup.
      induction Hnodup as [|k l Hk _ IH]; [constructor|].
      simpl. destruct (d !! k) as [v|] eqn:Hd; [|done]. simpl.
      constructor; [|done].
      rewrite list_elem_of_omap. intros (k' & Hk' & Heq).
      destruct (d !! k') as [v'|]; [|discriminate].
      simpl in Heq. injection Heq as -> _. done.
    + intros [k v]. rewrite list_elem_of_omap, list_elem_of_filter.
      intros (k' & Hk' & Heq) [Hout _].
      destruct (d !! k') as [v'|]; [|discriminate].
      simpl in Heq. injection Heq as -> _.
      apply Hout. simpl. by apply elem_of_remove_dups.
    + apply NoDup_filter, NoDup_map_to_list.
  - apply NoDup_map_to_list.
  - intros [k v]. by rewrite elem_of_ordered_items, elem_of_map_to_list.
Qed.

End Dict_order.

Section Perform.
Context `{Environment}.

Lemma perform_app (w : World) (l k : list Effect) :
  perform w (l ++ k)
  = match raised (perform w l) with
    | Some _ => perform w l
    | None =>
        let out := perform (world (perform w l)) k in
        {| world := world out; performed := performed (perform w l) ++ performed out;
           raised := raised out |}
    end.
Proof.
  revert w. induction l as [|call l IH]; intros w.
  - simpl. by destruct (perform w k).
  - simpl. destruct (attempt w call) as [w'|]; [|done].
    rewrite IH. cbn [raised world performed].
    by destruct (perform w' l) as [w1 done1 [c|]].
Qed.

(** A run in which no call raised completed every call. *)
Lemma perform_returned (w : World) (l : list Effect) :
  raised (perform w l) = None -> performed (perform w l) = l.
Proof.
  revert w. induction l as [|call l IH]; intros w; [done|].
  simpl. destruct (attempt w call) as [w'|]; [|discriminate].
  cbn [raised performed]. intros Hnone. by rewrite IH.
Qed.

(** The call that raised is the one after the calls completed. *)
Lemma perform_raised (w : World) (l : list Effect) (call : Effect) :
  raised (perform w l) = Some call ->
  exists rest, l = performed (perform w l) ++ call :: rest.
Proof.
  revert w. induction l as [|c l IH]; intros w; [discriminate|].
  simpl. destruct (attempt w c) as [w'|].
  - cbn [raised performed]. intros Hsome.
    destruct (IH w' Hsome) as (rest & Hrest). exists rest. simpl. by rewrite <- Hrest.
  - cbn [raised performed]. intros [= <-]. by exists l.
Qed.

End Perform.

Section Dispatcher_properties.
Context `{PyText} `{Environment}.

Lemma printed_app (l k : list Effect) : printed (l ++ k) = printed l ++ printed k.
Proof. unfold printed. by rewrite bind_app. Qed.

Lemma writes_app (l k : list Effect) : writes (l ++ k) = writes l ++ writes k.
Proof. unfold writes. by rewrite bind_app. Qed.

Lemma printed_Stdout (lines : list string) : printed (Stdout <$> lines) = lines.
Proof. induction lines as [|line lines IH]; [done|]. simpl. by rewrite <- IH at 2. Qed.

Lemma writes_Stdout (lines : list string) : writes (Stdout <$> lines) = [].
Proof. induction lines as [|line lines IH]; [done|]. simpl. apply IH. Qed.

(** [_print] makes calls of [print] only. *)
Lemma _print_Stdout (a : EmittedAlert) : exists lines, _print a = Stdout <$> lines.
Proof. unfold _print. cbv zeta. by eexists. Qed.

Lemma writes__print (a : EmittedAlert) : writes (_print a) = [].
Proof. destruct (_print_Stdout a) as (lines & ->). apply writes_Stdout. Qed.

Lemma printed_dispatch_one (output_dir : option string) (a : EmittedAlert) :
  printed (dispatch_one output_dir a) = printed (_print a).
Proof.
  unfold dispatch_one. rewrite printed_app.
  destruct output_dir; simpl; by rewrite app_nil_r.
Qed.

Lemma writes_dispatch_one (output_dir : option string) (a : EmittedAlert) :
  writes (dispatch_one output_dir a)
  = match output_dir with
    | Some dir => [(dir, filename a, json_dumps (payload a))]
    | None => []
    end.
Proof.
  unfold dispatch_one. rewrite writes_app, writes__print. by destruct output_dir.
Qed.

Lemma Mkdir_dispatch_one (output_dir : option string) (a : EmittedAlert) (dir : string) :
  Mkdir dir ∉ dispatch_one output_dir a.
Proof.
  unfold dispatch_one. destruct (_print_Stdout a) as (lines & ->).
  rewrite elem_of_app, list_elem_of_fmap. intros [(line & Hline & _)|Hin]; [discriminate|].
  destruct output_dir; [|inversion Hin].
  apply list_elem_of_singleton in Hin. discriminate.
Qed.

(** A call that raises while one alert is handled: the calls completed
    are calls of [print], the first of those [_print] makes. *)
Lemma dispatch_one_raised (w : World) (output_dir : option string) (a : EmittedAlert)
    (call : Effect) :
  raised (perform w (dispatch_one output_dir a)) = Some call ->
  let done := performed (perform w (dispatch_one output_dir a)) in
  call ∈ dispatch_one output_dir a
  /\ printed done `prefix_of` printed (_print a)
  /\ writes done = []
  /\ (forall dir, Mkdir dir ∉ done).
Proof.
  intros Hraised done. subst done.
  destruct (perform_raised _ _ _ Hraised) as (rest & Hcalls).
  split; [rewrite Hcalls, elem_of_app; right; left|].
  assert (Hdone : exists lines more,
            performed (perform w (dispatch_one output_dir a)) = Stdout <$> lines
            /\ printed (_print a) = lines ++ more).
  { revert Hcalls. generalize (performed (perform w (dispatch_one output_dir a))).
    intros done. unfold dispatch_one.
    destruct (_print_Stdout a) as (lines & ->). rewrite printed_Stdout.
    intros Hcalls. apply app_eq_inv in Hcalls as [(k & Hlines & Htail)|(k & Hdone & Htail)].
    - apply fmap_app_inv in Hlines as (l1 & l2 & -> & _ & ->). by exists l1, l2.
    - assert (k = []) as ->.
      { destruct k as [|c k]; [done|]. exfalso.
        destruct output_dir; simpl in Htail; [|discriminate].
        injection Htail as _ Htail. by destruct k. }
      rewrite app_nil_r in Hdone. exists lines, []. by rewrite app_nil_r. }
  destruct Hdone as (lines & more & -> & Hmore).
  rewrite printed_Stdout, writes_Stdout. repeat split.
  - rewrite Hmore. by exists more.
  - intros dir. rewrite list_elem_of_fmap. intros (line & Hline & _). discriminate.
Qed.

Lemma dispatch_cons (w : World) (output_dir : option string) (a : EmittedAlert)
    (alerts : list EmittedAlert) :
  dispatch w output_dir (a :: alerts)
  = match raised (perform w (dispatch_one output_dir a)) with
    | Some _ => perform w (dispatch_one output_dir a)
    | None =>
        let out := dispatch (world (perform w (dispatch_one output_dir a)))
                     output_dir alerts in
        {| world := world out;
           performed := dispatch_one output_dir a ++ performed out;
           raised := raised out |}
    end.
Proof.
  unfold dispatch. change (a0 ← a :: alerts; dispatch_one output_dir a0)
    with (dispatch_one output_dir a ++ (a0 ← alerts; dispatch_one output_dir a0)).
  rewrite perform_app.
  destruct (raised (perform w (dispatch_one output_dir a))) eqn:Hraised; [done|].
  by rewrite (perform_returned _ _ Hraised).
Qed.

Lemma files_in_app (dir : string) (l k : list Effect) (files : gmap string string) :
  files_in dir (l ++ k) files = files_in dir k (files_in dir l files).
Proof.
  revert files. induction l as [|e l IH]; intros files; [done|].
  destruct e; simpl; apply IH.
Qed.

Lemma files_in__print (dir : string) (a : EmittedAlert) (files : gmap string string) :
  files_in dir (_print a) files = files.
Proof.
  destruct (_print_Stdout a) as (lines & ->).
  induction lines as [|line lines IH]; [done|]. simpl. apply IH.
Qed.

(** The calls of a dispatch that returns. *)
Definition dispatched (output_dir : option string) (alerts : list EmittedAlert)
    : list Effect :=
  a ← alerts; dispatch_one output_dir a.

Lemma dispatch_returned (w : World) (output_dir : option string)
    (alerts : list EmittedAlert) :
  raised (dispatch w output_dir alerts) = None ->
  performed (dispatch w output_dir alerts) = dispatched output_dir alerts.
Proof. apply perform_returned. Qed.

Lemma files_in_dispatched_cons (dir : string) (a : EmittedAlert)
    (alerts : list EmittedAlert) (files : gmap string string) :
  files_in dir (dispatched (Some dir) (a :: alerts)) files
  = files_in dir (dispatched (Some dir) alerts)
      (<[filename a := json_dumps (payload a)]> files).
Proof.
  change (dispatched (Some dir) (a :: alerts))
    with (dispatch_one (Some dir) a ++ dispatched (Some dir) alerts).
  unfold dispatch_one.
  rewrite !files_in_app, files_in__print. unfold _write. simpl.
  by rewrite bool_decide_true.
Qed.

Lemma files_in_dispatched_other (dir name : string) (alerts : list EmittedAlert)
    (files : gmap string string) :
  (forall a, a ∈ alerts -> filename a <> name) ->
  files_in dir (dispatched (Some dir) alerts) files !! name = files !! name.
Proof.
  revert files. induction alerts as [|a alerts IH]; intros files Hother; [done|].
  rewrite files_in_dispatched_cons, IH.
  - apply lookup_insert_ne. apply Hother. left.
  - intros b Hb. apply Hother. by right.
Qed.

Lemma list_ascii_of_string_append (s t : string) :
  list_ascii_of_string (s +:+ t) = list_ascii_of_string s ++ list_ascii_of_string t.
Proof. induction s as [|c s IH]; [done|]. simpl. by rewrite IH. Qed.

Lemma list_ascii_of_replace_char (old new : ascii) (s : string) :
  list_ascii_of_string (replace_char old new s)
  = (fun c => if bool_decide (c = old) then new else c) <$> list_ascii_of_string s.
Proof. unfold replace_char. apply list_ascii_of_string_of_list_ascii. Qed.

Lemma replace_char_inj (old new : ascii) (s t : string) :
  new ∉ list_ascii_of_string s -> new ∉ list_ascii_of_string t ->
  replace_char old new s = replace_char old new t -> s = t.
Proof.
  intros Hs Ht Heq.
  apply (f_equal list_ascii_of_string) in Heq.
  rewrite !list_ascii_of_replace_char in Heq.
  rewrite <- (string_of_list_ascii_of_string s), <- (string_of_list_ascii_of_string t).
  f_equal.
  revert Hs Ht Heq. generalize (list_ascii_of_string t) as l2.
  induction (list_ascii_of_string s) as [|c l1 IH]; intros [|d l2] Hs Ht Heq;
    try done.
  rewrite !fmap_cons in Heq. injection Heq as Hhead Htail.
  rewrite not_elem_of_cons in Hs, Ht. destruct Hs as [Hc Hs], Ht as [Hd Ht].
  f_equal; [|by apply IH].
  repeat case_bool_decide; congruence.
Qed.

(** X16: [dispatch] never creates a directory.  When it returns, it has
    printed the lines of every alert, in order, the same with or without
    an output directory; without one it has written nothing, with one it
    has written one file per alert, in the order of the alerts, each named
    by [filename] and holding the JSON text of the alert's payload.  When
    a call raises, it is a call made for one alert of the batch: the
    alerts before that one have been printed and written in the same way,
    of that one some first lines have been printed and nothing written,
    and the alerts after it have been neither printed nor written. *)
Theorem dispatch_prints_and_writes_until_a_call_raises (w : World)
    (output_dir : option string) (alerts : list EmittedAlert) :
  let run := dispatch w output_dir alerts in
  let lines_of (l : list EmittedAlert) := a ← l; printed (_print a) in
  let files_of (l : list EmittedAlert) :=
    match output_dir with
    | Some dir => (fun a => (dir, filename a, json_dumps (payload a))) <$> l
    | None => []
    end in
  (forall dir, Mkdir dir ∉ performed run)
  /\ match raised run with
     | None =>
         printed (performed run) = lines_of alerts
         /\ writes (performed run) = files_of alerts
     | Some call =>
         exists before a after lines,
           alerts = before ++ a :: after
           /\ call ∈ dispatch_one output_dir a
           /\ lines `prefix_of` printed (_print a)
           /\ printed (performed run) = lines_of before ++ lines
           /\ writes (performed run) = files_of before
     end.
Proof.
  intros run lines_of files_of. subst run.
  revert w. induction alerts as [|a alerts IH]; intros w.
  { split; [intros dir Hin; inversion Hin|].
    split; [done|]. subst files_of. by destruct output_dir. }
  rewrite dispatch_cons.
  destruct (raised (perform w (dispatch_one output_dir a))) as [call|] eqn:Hraised.
  - rewrite Hraised.
    destruct (dispatch_one_raised w output_dir a call Hraised)
      as (Hcall & Hprefix & Hwrites & Hmkdir).
    split; [done|].
    exists [], a, alerts, (printed (performed (perform w (dispatch_one output_dir a)))).
    repeat (split; [done|]). rewrite Hwrites. subst files_of. by destruct output_dir.
  - cbv zeta. cbn [performed raised].
    destruct (IH (world (perform w (dispatch_one output_dir a)))) as [IHm IHr].
    split.
    { intros dir. rewrite elem_of_app. intros [Hin|Hin]; [|by eapply IHm].
      by eapply Mkdir_dispatch_one. }
    rewrite printed_app, writes_app, printed_dispatch_one, writes_dispatch_one.
    destruct (raised (dispatch _ output_dir alerts)) as [call|].
    + destruct IHr as (before & b & after & lines & -> & Hcall & Hprefix & Hp & Hw).
      exists (a :: before), b, after, lines.
      repeat (split; [done|]). rewrite Hp, Hw. split.
      * subst lines_of. simpl. by rewrite app_assoc.
      * subst files_of. by destruct output_dir.
    + destruct IHr as [-> ->]. split; [done|].
      subst files_of. by destruct output_dir.
Qed.

(** X17: when [dispatch] into a directory returns, of alerts whose ids
    hold no path separator, the file named after an alert holds the payload
    of the last alert of the batch with that file name: an earlier alert of
    the same name is overwritten.  Files whose name no alert of the batch
    has are left as they were. *)
Theorem dispatch_keeps_last_alert_of_a_name (w : World) (dir : string)
    (before after : list EmittedAlert) (a : EmittedAlert) (files : gmap string string) :
  Forall (fun b => ("/"%char) ∉ list_ascii_of_string (alert_id (alert b)))
         (before ++ a :: after) ->
  raised (dispatch w (Some dir) (before ++ a :: after)) = None ->
  (forall b, b ∈ after -> filename b <> filename a) ->
  let left_behind :=
    files_in dir (performed (dispatch w (Some dir) (before ++ a :: after))) files in
  left_behind !! filename a = Some (json_dumps (payload a))
  /\ (forall name, (forall b, b ∈ before ++ a :: after -> filename b <> name) ->
        left_behind !! name = files !! name).
Proof.
  intros _ Hreturned Hlast left_behind. subst left_behind.
  rewrite (dispatch_returned _ _ _ Hreturned). clear Hreturned. split.
  - revert files. induction before as [|b before IH]; intros files.
    + simpl app. rewrite files_in_dispatched_cons, files_in_dispatched_other by done.
      apply lookup_insert_eq.
    + change ((b :: before) ++ a :: after) with (b :: (before ++ a :: after)).
      rewrite files_in_dispatched_cons. apply IH.
  - intros name Hname. by apply files_in_dispatched_other.
Qed.

(** X18: the file name of an alert holds no colon, and every other
    character of the alert's id is kept in it, a path separator among
    them. *)
Theorem filename_replaces_only_colons (a : EmittedAlert) :
  ((":"%char) ∉ list_ascii_of_string (filename a))
  /\ (forall c, c <> ":"%char -> c ∈ list_ascii_of_string (alert_id (alert a)) ->
        c ∈ list_ascii_of_string (filename a))
  /\ length (list_ascii_of_string (filename a))
     = (length (list_ascii_of_string (alert_id (alert a))) + 5)%nat.
Proof.
  unfold filename. rewrite list_ascii_of_string_append, list_ascii_of_replace_char.
  repeat split.
  - rewrite elem_of_app, list_elem_of_fmap. intros [(c & Hc & _)|Hin].
    + case_bool_decide; [discriminate|congruence].
    + vm_compute in Hin. repeat (apply elem_of_cons in Hin as [Hin|Hin]; [discriminate|]).
      inversion Hin.
  - intros c Hc Hin. apply elem_of_app. left. apply list_elem_of_fmap.
    exists c. split; [|done]. by rewrite bool_decide_false.
  - by rewrite length_app, length_fmap.
Qed.

(** X19: two alerts whose ids hold no underscore are written to the same
    file only when their ids are equal. *)
Theorem filename_shared_only_by_equal_ids (a b : EmittedAlert) :
  ("_"%char) ∉ list_ascii_of_string (alert_id (alert a)) ->
  ("_"%char) ∉ list_ascii_of_string (alert_id (alert b)) ->
  filename a = filename b ->
  alert_id (alert a) = alert_id (alert b).
Proof.
  intros Ha Hb Heq. apply (replace_char_inj ":" "_"); [done..|].
  unfold filename in Heq.
  apply (f_equal list_ascii_of_string) in Heq.
  rewrite !list_ascii_of_string_append in Heq. apply app_inv_tail in Heq.
  rewrite <- (string_of_list_ascii_of_string (replace_char _ _ (alert_id (alert a)))),
    <- (string_of_list_ascii_of_string (replace_char _ _ (alert_id (alert b)))).
  by rewrite Heq.
Qed.

End Dispatcher_properties.

(** [s.startswith(p)]. *)
Fixpoint starts_with (p s : string) {struct p} : bool :=
  match p, s with
  | "", _ => true
  | String a p', String b s' => bool_decide (a = b) && starts_with p' s'
  | String _ _, "" => false
  end.

Section Print_and_write.
Context `{PyText}.

Lemma filter_all {A : Type} (f : A -> bool) (l : list A) :
  Forall (fun x => f x = true) l -> List.filter f l = l.
Proof.
  induction 1 as [|x l Hx _ IH]; [done|]. simpl. by rewrite Hx, IH.
Qed.

Lemma Forall_imap {A B : Type} (P : B -> Prop) (f : nat -> A -> B) (l : list A) :
  (forall i x, P (f i x)) -> Forall P (imap f l).
Proof.
  revert f. induction l as [|x l IH]; intros f Hf; [constructor|].
  simpl. constructor; [apply Hf|]. apply IH. intros i y. apply Hf.
Qed.

(** X20: standard output shows at most five events of an alert, the first
    five, in at most 13 calls of [print], whereas the payload written to
    the file holds an entry for each of the alert's events. *)
Theorem stdout_truncates_the_file_does_not (a : EmittedAlert) :
  let n := length (events (alert a)) in
  length (List.filter (starts_with "  - ") (printed (_print a))) = Nat.min 5 n
  /\ (length (printed (_print a)) <= 13)%nat
  /\ exists fields items,
       payload a = JObject (fields ++ [("events", JArray items)])
       /\ length items = n.
Proof.
  intros n. subst n. unfold _print. cbv zeta. rewrite printed_Stdout.
  repeat split.
  - rewrite !List.filter_app.
    rewrite (filter_all _ (imap _ (take 5 _))).
    2:{ apply Forall_imap. by intros i event. }
    rewrite !length_app, length_imap, length_take.
    assert (Hfixed : forall l : list string,
              Forall (fun line => starts_with "  - " line = false) l ->
              length (List.filter (starts_with "  - ") l) = 0%nat).
    { intros l. induction 1 as [|x l Hx _ IH]; [done|]. cbn [List.filter]. by rewrite Hx. }
    rewrite !Hfixed; [lia|..].
    + by repeat constructor.
    + destruct (5 <? _)%nat; by repeat constructor.
    + by repeat constructor.
    + destruct (remediation (alert a)) as [text|]; [|done].
      case_bool_decide; by repeat constructor.
    + by repeat constructor.
  - rewrite !length_app, length_imap, length_take.
    pose proof (Nat.le_min_l 5 (length (events (alert a)))) as Hfive.
    destruct (remediation (alert a)) as [text|]; [case_bool_decide|];
      destruct (5 <? _)%nat; cbn [length]; lia.
  - unfold payload. eexists [_; _; _; _; _; _], _. split; [reflexivity|].
    by rewrite length_imap.
Qed.

End Print_and_write.

(** ** A run and its dispatch

    [main] hands the alerts of a run to the dispatcher:
    [alerts = list(engine.process(events))] and then
    [dispatcher.dispatch(alerts)]. *)

Section Run_and_dispatch.
Context `{PyRuntime} `{PyText} `{Environment}.

(** X21: two alerts of a run can land in one file.  Under a windowed rule
    with a threshold of at most 1, two admitted events of one grouping key
    whose cutoffs can be computed and whose [int(timestamp())] is the same
    yield two alerts; whatever their creation times and the order of
    their events' keys, the two have one file name, and a dispatch of them
    into a directory that returns leaves one file, which holds the alert of
    the second event: the alert of the first is lost on disk. *)
Theorem same_second_alerts_share_a_file (rule : DetectionRule) (st : Store)
    (e1 e2 : Event) (T W : Z) (c1 c2 : Z) (o1 o2 : list (list string))
    (w : World) (dir : string) (files : gmap string string) :
  windowed rule ->
  threshold_of rule = Ok T ->
  window_minutes_of rule = Ok W ->
  T <= 1 -> 0 <= W ->
  window_in_range W e1 -> window_in_range W e2 ->
  (forall key bucket, bucket_of st (rule_id rule) key = Some bucket -> bucket = []) ->
  admits rule e1 = true -> admits rule e2 = true ->
  grouping_key rule e1 = grouping_key rule e2 ->
  epoch_seconds (timestamp e1) = epoch_seconds (timestamp e2) ->
  ("/"%char) ∉ list_ascii_of_string (rule_id rule +:+ grouping_key rule e1) ->
  exists a1 a2,
    (process {| rules := [rule]; state := st |} [e1; e2]).1.2 = [a1; a2]
    /\ events a1 = [e1] /\ events a2 = [e2]
    /\ let first := {| alert := a1; created_at := c1; key_orders := o1 |} in
       let second := {| alert := a2; created_at := c2; key_orders := o2 |} in
       filename first = filename second
       /\ (raised (dispatch w (Some dir) [first; second]) = None ->
           files_in dir (performed (dispatch w (Some dir) [first; second])) files
           = <[filename second := json_dumps (payload second)]> files).
Proof.
  intros Hw HT HW Hone Hpos Hin1 Hin2 Hst Hadm1 Hadm2 Hkey Hsec _.
  assert (Hrange : Forall (window_in_range W) [e1; e2]).
  { apply Forall_cons. split; [done|]. by apply Forall_singleton. }
  destruct (process_events_threshold_one rule T W Hw HT HW [e1; e2] Hone Hpos Hrange st Hst)
    as (st' & alerts & Hrun & Hev & Hids & _).
  unfold process. cbn [rules state]. rewrite Hrun. cbn [fst snd].
  rewrite !filter_cons, filter_nil, !decide_True in Hev, Hids by done.
  destruct alerts as [|a1 [|a2 [|a3 alerts]]]; try discriminate.
  injection Hev as Hev1 Hev2. injection Hids as Hid1 Hid2.
  exists a1, a2. do 3 (split; [done|]).
  set (first := {| alert := a1; created_at := c1; key_orders := o1 |}).
  set (second := {| alert := a2; created_at := c2; key_orders := o2 |}).
  assert (Hname : filename first = filename second).
  { unfold filename. subst first second. cbn [alert]. by rewrite Hid1, Hid2, Hkey, Hsec. }
  split; [exact Hname|]. intros Hreturned.
  rewrite (dispatch_returned _ _ _ Hreturned), !files_in_dispatched_cons, Hname.
  cbn [dispatched files_in mbind list_bind]. apply insert_insert_eq.
Qed.

End Run_and_dispatch.

(** ** A reference text runtime

    An executable instance of [PyText], used to run the dispatcher on
    concrete inputs.  [isoformat] is the one of a naive [datetime];
    [dict_str] and [json_dumps] render mappings of strings and the payload
    of an alert, with the escapes of [repr] and of [json.dumps] for the
    characters of the model (code points below 256). *)
Module RefText.

(** [z] in decimal, padded with zeros to [width] digits, for [0 <= z]. *)
Definition padded (width : nat) (z : Z) : string :=
  let digits := int_repr z in
  string_of_list_ascii (replicate (width - String.length digits) "0"%char) +:+ digits.

(** The proleptic Gregorian date of a day counted from 1970-01-01. *)
Definition civil_from_days (days : Z) : Z * Z * Z :=
  let z := days + 719468 in
  let era := z / 146097 in
  let doe := z - era * 146097 in
  let yoe := (doe - doe / 1460 + doe / 36524 - doe / 146096) / 365 in
  let doy := doe - (365 * yoe + yoe / 4 - yoe / 100) in
  let mp := (5 * doy + 2) / 153 in
  let d := doy - (153 * mp + 2) / 5 + 1 in
  let m := if mp <? 10 then mp + 3 else mp - 9 in
  (yoe + era * 400 + (if m <=? 2 then 1 else 0), m, d).

Definition isoformat (ts : Z) : string :=
  let seconds := ts / 1000000 in
  let micro := ts mod 1000000 in
  let '(y, m, d) := civil_from_days (seconds / 86400) in
  let s := seconds mod 86400 in
  padded 4 y +:+ "-" +:+ padded 2 m +:+ "-" +:+ padded 2 d +:+ "T"
  +:+ padded 2 (s / 3600) +:+ ":" +:+ padded 2 (s mod 3600 / 60) +:+ ":"
  +:+ padded 2 (s mod 60)
  +:+ (if micro =? 0 then "" else "." +:+ padded 6 micro).

Definition hex_digit (n : Z) : ascii :=
  ascii_of_nat (Z.to_nat (if n <? 10 then 48 + n else 87 + n)).

Definition hex2 (n : Z) : string :=
  String (hex_digit (n / 16)) (String (hex_digit (n mod 16)) "").

Definition char (n : Z) : string := String (ascii_of_nat (Z.to_nat n)) "".

Definition escaped (special : Z -> option string) (s : string) : string :=
  String.concat ""
    ((fun c =>
        let n := Z.of_nat (nat_of_ascii c) in
        default (String c "") (special n))
     <$> list_ascii_of_string s).

(** A string as [json.dumps] writes it, with [ensure_ascii]. *)
Definition json_quote (s : string) : string :=
  char 34
  +:+ escaped (fun n =>
        if n =? 34 then Some (char 92 +:+ char 34)
        else if n =? 92 then Some (char 92 +:+ char 92)
        else if n =? 10 then Some (char 92 +:+ "n")
        else if n =? 13 then Some (char 92 +:+ "r")
        else if n =? 9 then Some (char 92 +:+ "t")
        else if n =? 8 then Some (char 92 +:+ "b")
        else if n =? 12 then Some (char 92 +:+ "f")
        else if (n <? 32) || (127 <? n) then Some (char 92 +:+ "u00" +:+ hex2 n)
        else None) s
  +:+ char 34.

(** [repr] of a [str]. *)
Definition str_repr (s : string) : string :=
  let cs := list_ascii_of_string s in
  let quote :=
    if bool_decide ("'"%char ∈ cs) && negb (bool_decide (ascii_of_nat 34 ∈ cs))
    then 34 else 39 in
  char quote
  +:+ escaped (fun n =>
        if (n =? quote) || (n =? 92) then Some (char 92 +:+ char n)
        else if n =? 10 then Some (char 92 +:+ "n")
        else if n =? 13 then Some (char 92 +:+ "r")
        else if n =? 9 then Some (char 92 +:+ "t")
        else if (n <? 32) || ((127 <=? n) && (n <=? 160)) || (n =? 173)
        then Some (char 92 +:+ "x" +:+ hex2 n)
        else None) s
  +:+ char quote.

Definition dict_str (items : list (string * string)) : string :=
  "{" +:+ String.concat ", "
            ((fun kv => str_repr kv.1 +:+ ": " +:+ str_repr kv.2) <$> items)
  +:+ "}".

Definition newline (depth : nat) : string :=
  char 10 +:+ string_of_list_ascii (replicate (2 * depth) " "%char).

Definition block (opening closing : string) (depth : nat) (items : list string) : string :=
  match items with
  | [] => opening +:+ closing
  | _ =>
      opening +:+ newline (S depth)
      +:+ String.concat ("," +:+ newline (S depth)) items
      +:+ newline depth +:+ closing
  end.

Fixpoint json_text (depth : nat) (j : Json) : string :=
  match j with
  | JNull => "null"
  | JString s => json_quote s
  | JArray items => block "[" "]" depth (List.map (json_text (S depth)) items)
  | JObject fields =>
      block "{" "}" depth
        (List.map (fun kv => json_quote (fst kv) +:+ ": " +:+ json_text (S depth) (snd kv))
                  fields)
  end.

End RefText.

Definition ref_text : PyText :=
  {| isoformat := RefText.isoformat;
     dict_str := RefText.dict_str;
     json_dumps := RefText.json_text 0 |}.

(** ** A reference environment

    An executable instance of [Environment]: a console that takes every
    line and a file system of flat directories, in which a write goes
    through when the name is one a directory can hold: not empty, at most
    255 bytes, without path separator and without null byte.  Its state is
    the files written, by directory and name. *)
Definition plain_name (name : string) : bool :=
  let cs := list_ascii_of_string name in
  (1 <=? length cs)%nat && (length cs <=? 255)%nat
  && bool_decide (("/"%char) ∉ cs) && bool_decide (zero ∉ cs).

Definition flat_directories : Environment :=
  {| World := list (string * string * string);
     attempt := fun w call =>
       match call with
       | WriteText dir name text =>
           if plain_name name
           then Some ((dir, name, text)
                      :: List.filter (fun f => negb (bool_decide (f.1 = (dir, name)))) w)
           else None
       | _ => Some w
       end |}.

(** The state in which nothing has been written. *)
Definition no_files : @World flat_directories := [].

(** ** Further rules, events and alerts *)
Module Cases.
Import Scenario.

(** A threshold met by every admitted event. *)
Definition login_rule_each : DetectionRule :=
  mk_rule "each" "failed_login_threshold"
    [ ("threshold", VInt 1); ("window_minutes", VInt 10) ].

(** A window that ends before it starts. *)
Definition login_rule_backwards : DetectionRule :=
  mk_rule "brute" "failed_login_threshold"
    [ ("threshold", VInt 3); ("window_minutes", VInt (-1)) ].

(** A failed login of alice, [us] microseconds after the epoch. *)
Definition failed_at (us : Z) (host : string) : Event :=
  {| timestamp := us; source := "test.log"; category := "auth";
     severity := "info";
     details := list_to_map [("username", "alice"); ("result", "failed"); ("host", host)] |}.

(** An alert on the failed login at minute 0, whose [details] were filled
    in the order username, result. *)
Definition emitted (id text : string) (at_ : Z) : EmittedAlert :=
  {| alert := {| alert_id := id; title := text; description := text;
                 priority := "high"; events := [failed 0]; remediation := None |};
     created_at := at_;
     key_orders := [["username"; "result"]] |}.

(** The same alert with the [details] filled in the other order. *)
Definition emitted_reversed (id text : string) (at_ : Z) : EmittedAlert :=
  {| alert := alert (emitted id text at_);
     created_at := at_;
     key_orders := [["result"; "username"]] |}.

End Cases.

Section Further_examples.
Import Scenario Cases.
Local Existing Instance ref_runtime.
Local Existing Instance ref_text.
Local Existing Instance flat_directories.

Local Ltac the_only_rule :=
  let other := fresh "other" in
  let Hother := fresh "Hother" in
  intros other Hother _;
  repeat (apply elem_of_cons in Hother as [->|Hother]);
  first [reflexivity | by apply elem_of_nil in Hother].

Local Ltac no_bucket :=
  let Hb := fresh "Hb" in
  intros ? ? Hb; unfold bucket_of in Hb; rewrite lookup_empty in Hb; discriminate.

Local Ltac in_range :=
  unfold window_in_range, cutoff_in_range, is_datetime;
  vm_compute; repeat split; discriminate.

Local Ltac all_in_range :=
  repeat (apply Forall_cons; split; [in_range|]); by apply Forall_nil.

(** Two failed logins of alice leave the bucket of bob as it was. *)
Lemma bucket_untouched_by_other_keys_witness :
  grouping_key login_rule (failed 0) = "alice"
  /\ bucket_of (state (process (DetectionEngine_init [login_rule])
                               [failed 0; failed 2]).1.1) "brute" "bob"
     = bucket_of (state (DetectionEngine_init [login_rule])) "brute" "bob".
Proof.
  split; [reflexivity|].
  apply (bucket_untouched_by_other_keys (DetectionEngine_init [login_rule])
           [failed 0; failed 2] login_rule "bob").
  - change (rules (DetectionEngine_init [login_rule])) with [login_rule]. the_only_rule.
  - intros event Hevent _ _.
    repeat (apply elem_of_cons in Hevent as [->|Hevent]);
      [discriminate | discriminate | by apply elem_of_nil in Hevent].
Defined.

(** Two failed logins of alice, below the threshold of 3: the bucket of
    alice holds them, and both are admitted events of the stream. *)
Lemma buckets_hold_admitted_events_witness :
  windowed login_rule
  /\ Forall (fun e => e ∈ [failed 0; failed 2]
                      /\ admits login_rule e = true
                      /\ grouping_key login_rule e = "alice")
            [failed 0; failed 2].
Proof.
  assert (Hw : windowed login_rule) by by left.
  split; [exact Hw|].
  refine (proj1 (buckets_hold_admitted_events [login_rule] [failed 0; failed 2]
                   login_rule _ Hw) "alice" [failed 0; failed 2] _).
  - change (rules (DetectionEngine_init [login_rule])) with [login_rule]. the_only_rule.
  - reflexivity.
Defined.

(** Two connections to the same port under a threshold of 2 distinct
    ports: no alert. *)
Lemma port_scan_needs_distinct_values_witness :
  threshold_of scan_rule = Ok 2
  /\ forall alert,
       (scan_rule, alert)
       ∉ (process_attributed (DetectionEngine_init [scan_rule])
            [conn 0 "22" "allowed"; conn 1 "22" "allowed"]).1.2.
Proof.
  split; [reflexivity|].
  apply (port_scan_needs_distinct_values [scan_rule]
           [conn 0 "22" "allowed"; conn 1 "22" "allowed"] scan_rule 2).
  - change (rules (DetectionEngine_init [scan_rule])) with [scan_rule]. the_only_rule.
  - reflexivity.
  - reflexivity.
  - vm_compute. reflexivity.
Defined.

(** A window of -1 minute: three failed logins leave an empty bucket and
    no alert. *)
Lemma negative_window_keeps_nothing_witness :
  (window_minutes_of login_rule_backwards = Ok (-1)
   /\ Forall (window_in_range (-1)) [failed 0; failed 2; failed 5])
  /\ (forall key bucket,
        bucket_of (state (process_attributed (DetectionEngine_init [login_rule_backwards])
                            [failed 0; failed 2; failed 5]).1.1)
                  (rule_id login_rule_backwards) key = Some bucket ->
        bucket = [])
  /\ (forall alert,
        (login_rule_backwards, alert)
        ∈ (process_attributed (DetectionEngine_init [login_rule_backwards])
             [failed 0; failed 2; failed 5]).1.2 ->
        events alert = []
        /\ exists T, threshold_of login_rule_backwards = Ok T /\ T <= 0).
Proof.
  assert (Hrange : Forall (window_in_range (-1)) [failed 0; failed 2; failed 5])
    by all_in_range.
  split; [by split|].
  apply (negative_window_keeps_nothing [login_rule_backwards]
           [failed 0; failed 2; failed 5] login_rule_backwards (-1)).
  - change (rules (DetectionEngine_init [login_rule_backwards]))
      with [login_rule_backwards]. the_only_rule.
  - by left.
  - reflexivity.
  - lia.
  - exact Hrange.
Defined.

(** The alert of three failed logins comes from the login rule, one of the
    two configured. *)
Lemma alerts_come_from_enabled_rules_witness :
  exists item,
    head (process_attributed (DetectionEngine_init [dns_rule; login_rule])
            [failed 0; failed 2; failed 5]).1.2 = Some item
    /\ item.1 ∈ [dns_rule; login_rule]
    /\ enabled item.1 = true
    /\ is_Some (_HANDLERS !! rule_type item.1)
    /\ priority item.2 = rule_severity item.1
    /\ remediation item.2 = rule_remediation item.1
    /\ Forall (fun e => e ∈ [failed 0; failed 2; failed 5]) (events item.2).
Proof.
  eexists. split; [vm_compute; reflexivity|].
  apply (alerts_come_from_enabled_rules [dns_rule; login_rule]
           [failed 0; failed 2; failed 5]).
  vm_compute. left.
Defined.


(** Two failed logins of alice from two hosts, 0.1 s and 0.9 s after the
    epoch: two alerts with one id. *)
Lemma alert_id_repeats_within_a_second_witness :
  (failed_at 100000 "web-1" <> failed_at 900000 "web-2"
   /\ epoch_seconds (timestamp (failed_at 100000 "web-1"))
      = epoch_seconds (timestamp (failed_at 900000 "web-2"))
   /\ window_in_range 10 (failed_at 100000 "web-1")
   /\ window_in_range 10 (failed_at 900000 "web-2"))
  /\ exists a1 a2,
       (process {| rules := [login_rule_each]; state := ∅ |}
                [failed_at 100000 "web-1"; failed_at 900000 "web-2"]).1.2 = [a1; a2]
       /\ events a1 = [failed_at 100000 "web-1"]
       /\ events a2 = [failed_at 900000 "web-2"]
       /\ alert_id a1 = alert_id a2.
Proof.
  assert (Hin1 : window_in_range 10 (failed_at 100000 "web-1")) by in_range.
  assert (Hin2 : window_in_range 10 (failed_at 900000 "web-2")) by in_range.
  split; [split; [discriminate | split; [vm_compute; reflexivity | by split]]|].
  apply (alert_id_repeats_within_a_second login_rule_each ∅
           (failed_at 100000 "web-1") (failed_at 900000 "web-2") 1 10);
    [by left | reflexivity | reflexivity | lia | lia | exact Hin1 | exact Hin2
    | no_bucket | reflexivity | reflexivity | reflexivity | vm_compute; reflexivity].
Defined.



(** A run under a window of 2000000000 minutes ends with the
    [OverflowError] of [_evict_old], the event left in the bucket. *)
Example process_raises_overflow :
  let run := process (DetectionEngine_init [login_rule_far]) [failed 0] in
  run.2 = Some OverflowError
  /\ run.1.2 = []
  /\ bucket_of (state run.1.1) "brute" "alice" = Some [failed 0].
Proof. cbv zeta. repeat split; vm_compute; reflexivity. Qed.


(** The login rule between the DNS rule and the scan rule: its alert on
    three failed logins is the one it yields alone. *)
Lemma rules_of_different_ids_are_independent_witness :
  (process (DetectionEngine_init [dns_rule; login_rule; scan_rule])
           [failed 0; failed 2; failed 5]).2 = None
  /\ (process {| rules := [login_rule]; state := ∅ |} [failed 0; failed 2; failed 5]).2
     = None
  /\ alerts_of (rule_id login_rule)
       (process_attributed (DetectionEngine_init [dns_rule; login_rule; scan_rule])
          [failed 0; failed 2; failed 5]).1.2
     = (process {| rules := [login_rule]; state := ∅ |} [failed 0; failed 2; failed 5]).1.2
  /\ state (process_attributed (DetectionEngine_init [dns_rule; login_rule; scan_rule])
              [failed 0; failed 2; failed 5]).1.1 !! rule_id login_rule
     = state (process {| rules := [login_rule]; state := ∅ |}
                [failed 0; failed 2; failed 5]).1.1 !! rule_id login_rule.
Proof.
  assert (Hquiet : (process (DetectionEngine_init [dns_rule; login_rule; scan_rule])
                            [failed 0; failed 2; failed 5]).2 = None)
    by (vm_compute; reflexivity).
  split; [exact Hquiet|].
  apply (rules_of_different_ids_are_independent
           (DetectionEngine_init [dns_rule; login_rule; scan_rule])
           [dns_rule] [scan_rule] login_rule [failed 0; failed 2; failed 5]);
    [reflexivity | | exact Hquiet].
  intros other Hother.
  repeat (apply elem_of_cons in Hother as [->|Hother]);
    [discriminate | discriminate | by apply elem_of_nil in Hother].
Defined.

(** Two alerts with one id and a third with another, written to a
    directory that is empty: the dispatch returns, and the file of the
    shared name holds the second alert, not the first. *)
Lemma dispatch_keeps_last_alert_of_a_name_witness :
  (filename (emitted "brute:alice:0" "first" 100000)
   = filename (emitted "brute:alice:0" "second" 900000)
   /\ json_dumps (payload (emitted "brute:alice:0" "first" 100000))
      <> json_dumps (payload (emitted "brute:alice:0" "second" 900000))
   /\ raised (dispatch no_files (Some "out")
                ([emitted "brute:alice:0" "first" 100000]
                 ++ emitted "brute:alice:0" "second" 900000
                 :: [emitted "scan:10.0.0.5:60" "third" 60000000])) = None)
  /\ files_in "out"
       (performed
          (dispatch no_files (Some "out")
             ([emitted "brute:alice:0" "first" 100000]
              ++ emitted "brute:alice:0" "second" 900000
              :: [emitted "scan:10.0.0.5:60" "third" 60000000]))) ∅
     !! "brute_alice_0.json"
     = Some (json_dumps (payload (emitted "brute:alice:0" "second" 900000))).
Proof.
  assert (Hreturned :
            raised (dispatch no_files (Some "out")
                      ([emitted "brute:alice:0" "first" 100000]
                       ++ emitted "brute:alice:0" "second" 900000
                       :: [emitted "scan:10.0.0.5:60" "third" 60000000])) = None)
    by (vm_compute; reflexivity).
  split; [split; [reflexivity | split; [vm_compute; discriminate | exact Hreturned]]|].
  apply (dispatch_keeps_last_alert_of_a_name no_files "out"
           [emitted "brute:alice:0" "first" 100000]
           [emitted "scan:10.0.0.5:60" "third" 60000000]
           (emitted "brute:alice:0" "second" 900000) ∅).
  - apply (bool_decide_unpack _). vm_compute. exact I.
  - exact Hreturned.
  - intros b Hb. apply list_elem_of_singleton in Hb as ->. vm_compute. discriminate.
Defined.

(** Two failed logins of alice within the first second, under a threshold
    of 1, dispatched into an empty directory: one file name and, the
    dispatch returning, one file. *)
Lemma same_second_alerts_share_a_file_witness :
  (admits login_rule_each (failed_at 100000 "web-1") = true
   /\ admits login_rule_each (failed_at 900000 "web-2") = true
   /\ epoch_seconds (timestamp (failed_at 100000 "web-1"))
      = epoch_seconds (timestamp (failed_at 900000 "web-2"))
   /\ window_in_range 10 (failed_at 100000 "web-1")
   /\ window_in_range 10 (failed_at 900000 "web-2")
   /\ raised (dispatch no_files (Some "out")
                ((fun a => {| alert := a; created_at := 100000;
                              key_orders := [["username"; "result"; "host"]] |})
                 <$> (process {| rules := [login_rule_each]; state := ∅ |}
                        [failed_at 100000 "web-1"; failed_at 900000 "web-2"]).1.2))
      = None)
  /\ exists a1 a2,
       (process {| rules := [login_rule_each]; state := ∅ |}
                [failed_at 100000 "web-1"; failed_at 900000 "web-2"]).1.2 = [a1; a2]
       /\ events a1 = [failed_at 100000 "web-1"]
       /\ events a2 = [failed_at 900000 "web-2"]
       /\ let first := {| alert := a1; created_at := 100000;
                          key_orders := [["username"; "result"; "host"]] |} in
          let second := {| alert := a2; created_at := 100000;
                           key_orders := [["username"; "result"; "host"]] |} in
          filename first = filename second
          /\ (raised (dispatch no_files (Some "out") [first; second]) = None ->
              files_in "out" (performed (dispatch no_files (Some "out") [first; second])) ∅
              = <[filename second := json_dumps (payload second)]> ∅).
Proof.
  assert (Hin1 : window_in_range 10 (failed_at 100000 "web-1")) by in_range.
  assert (Hin2 : window_in_range 10 (failed_at 900000 "web-2")) by in_range.
  split.
  { do 2 (split; [reflexivity|]). split; [vm_compute; reflexivity|].
    do 2 (split; [assumption|]). vm_compute. reflexivity. }
  apply (same_second_alerts_share_a_file login_rule_each ∅
           (failed_at 100000 "web-1") (failed_at 900000 "web-2") 1 10
           100000 100000 [["username"; "result"; "host"]] [["username"; "result"; "host"]]
           no_files "out" ∅);
    [by left | reflexivity | reflexivity | lia | lia | exact Hin1 | exact Hin2 | no_bucket
    | reflexivity | reflexivity | reflexivity | vm_compute; reflexivity |].
  apply (bool_decide_unpack _). vm_compute. exact I.
Defined.

(** The ids the handlers build from a rule id without underscore. *)
Lemma filename_shared_only_by_equal_ids_witness :
  filename (emitted "brute:alice:0" "first" 0)
  = filename (emitted "brute:alice:0" "second" 1)
  /\ alert_id (alert (emitted "brute:alice:0" "first" 0))
     = alert_id (alert (emitted "brute:alice:0" "second" 1)).
Proof.
  split; [reflexivity|].
  apply (filename_shared_only_by_equal_ids (emitted "brute:alice:0" "first" 0)
           (emitted "brute:alice:0" "second" 1)); [| |reflexivity];
    apply (bool_decide_unpack _); vm_compute; exact I.
Defined.

(** What the dispatcher prints and writes for an alert of the login rule. *)
Example dispatch_scenario :
  printed (performed (dispatch no_files None [emitted "brute:alice:0" "Brute force" 100000]))
  = [ "================================================================================";
      "ALERT: Brute force";
      "Priority: high | Created: 1970-01-01T00:00:00.100000 | ID: brute:alice:0";
      "Description: Brute force";
      "Associated events: 1";
      "  - 1970-01-01T00:00:00 auth {'username': 'alice', 'result': 'failed'}";
      "================================================================================" ]
  /\ (fun f => (f.1.1, f.1.2))
     <$> writes (performed (dispatch no_files (Some "out")
                              [emitted "brute:alice:0" "Brute force" 100000]))
     = [("out", "brute_alice_0.json")].
Proof. split; vm_compute; reflexivity. Qed.

(** The same events with their [details] filled in the other order are
    printed and written in that order. *)
Example dispatch_follows_insertion_order :
  alert (emitted_reversed "brute:alice:0" "Brute force" 100000)
  = alert (emitted "brute:alice:0" "Brute force" 100000)
  /\ printed (_print (emitted_reversed "brute:alice:0" "Brute force" 100000)) !! 5%nat
     = Some "  - 1970-01-01T00:00:00 auth {'result': 'failed', 'username': 'alice'}"
  /\ json_dumps (payload (emitted_reversed "brute:alice:0" "Brute force" 100000))
     <> json_dumps (payload (emitted "brute:alice:0" "Brute force" 100000)).
Proof.
  split; [reflexivity|]. split; [vm_compute; reflexivity | vm_compute; discriminate].
Qed.

(** An alert whose id holds a path separator: its write raises in a flat
    directory, and the alert after it is neither printed nor written. *)
Example dispatch_stops_at_a_write_that_raises :
  let batch := [ emitted "brute:alice:0" "first" 0;
                 emitted "brute:a/b:0" "second" 1;
                 emitted "scan:10.0.0.5:60" "third" 2 ] in
  let run := dispatch no_files (Some "out") batch in
  raised run
  = Some (WriteText "out" "brute_a/b_0.json"
            (json_dumps (payload (emitted "brute:a/b:0" "second" 1))))
  /\ printed (performed run)
     = printed (_print (emitted "brute:alice:0" "first" 0))
       ++ printed (_print (emitted "brute:a/b:0" "second" 1))
  /\ (fun f => f.1.2) <$> writes (performed run) = ["brute_alice_0.json"]
  /\ (fun f => f.1.2) <$> world run = ["brute_alice_0.json"].
Proof. cbv zeta. repeat split; vm_compute; reflexivity. Qed.

End Further_examples.
